(** * Session supervision in iptv-proxy-restreamer

    A shallow embedding of the two services that supervise transcoding
    sessions:

    - [HlsProxy]: the HLS-Proxy wrapper (the express application that owns
      [activeStreams] and spawns one ffmpeg worker per stream);
    - [Backend]: the API backend ([backend/src/index.js]) that keeps the
      display order, the cached channel metadata and the polling timers.

    Every request handler is embedded as a function from the state before
    the request to the response and the state after it.  What the outside
    world decides (whether a directory can be created, whether ffmpeg can
    be spawned, what the clock reads, what the other service answers) is
    handed to the handler as an explicit argument.  A handler runs to
    completion before the next one starts; the exit of a worker process is
    a step of its own ([HlsProxy.on_close]). *)

From Stdlib Require Import ZArith Lia Permutation Sorted Ascii.
From stdpp Require Import base option list gmap strings fin_maps.

Open Scope string_scope.
Open Scope list_scope.

(** JavaScript truthiness of an optional string field of a JSON body:
    [undefined] and the empty string are falsy. *)
Definition truthy (o : option string) : option string :=
  match o with
  | Some s => if decide (s = "") then None else Some s
  | None => None
  end.

Module HlsProxy.

(** ** Data *)

Definition STREAMS_DIR : string := "/app/data/streams".

(** [path.join] on a directory and one path segment.  Stream ids are taken
    to be single path segments, as the generated ones are. *)
Definition path_join (dir seg : string) : string := dir +:+ "/" +:+ seg.

Definition streamDir (sid : string) : string := path_join STREAMS_DIR sid.

(** The object stored in [activeStreams].  [status] holds a JavaScript
    string; the service only ever writes ["running"] and ["stopped"]. *)
Record stream := mkStream {
  id : string;
  url : string;
  proxyUrl : string;
  process : nat;
  status : string;
  startTime : string;
  ignoreErrors : bool
}.

(** A spawned ffmpeg process that has not closed yet, with what its
    [close] listener captured ([id], [streamDir]) and its command line. *)
Record worker := mkWorker {
  w_id : string;
  w_dir : string;
  w_args : list string
}.

Record state := mkState {
  activeStreams : gmap string stream;
  dirs : gset string;        (* directories present on disk *)
  workers : gmap nat worker; (* live child processes, by handle *)
  signals : list nat;        (* handles [kill()] was called on, latest first *)
  nextHandle : nat           (* handle of the next child process *)
}.

Definition init : state := mkState ∅ ∅ ∅ [] 0.

(** What the environment decides during one handler. *)
Record env := mkEnv {
  mkdir_ok : bool;    (* [fs.mkdir] inside [startStream] succeeds *)
  remkdir_ok : bool;  (* [fs.mkdir] of the restart handler succeeds *)
  spawn_ok : bool;    (* [spawn('ffmpeg', ...)] returns a child process *)
  rm_ok : bool;       (* [fs.rm] succeeds *)
  date_now : string;  (* [Date.now().toString()] *)
  date_iso : string   (* [new Date().toISOString()] *)
}.

Inductive outcome (A : Type) : Type :=
| Ok (a : A)
| Throw (msg : string).
Arguments Ok {A} a.
Arguments Throw {A} msg.

(** The six fields the service sends back for a stream. *)
Record view := mkView {
  v_id : string;
  v_url : string;
  v_proxyUrl : string;
  v_status : string;
  v_startTime : string;
  v_ignoreErrors : bool
}.

Inductive body :=
| JError (msg : string)
| JStream (v : view)
| JSuccess
| JStreams (l : list view).

Record response := mkResponse { code : nat; json : body }.

(** ** State updates *)

Definition set_activeStreams (m : gmap string stream) (s : state) : state :=
  mkState m (dirs s) (workers s) (signals s) (nextHandle s).

Definition set_dirs (d : gset string) (s : state) : state :=
  mkState (activeStreams s) d (workers s) (signals s) (nextHandle s).

Definition set_status (st : string) (x : stream) : stream :=
  mkStream (id x) (url x) (proxyUrl x) (process x) st (startTime x) (ignoreErrors x).

(** [process.kill()]: the signal is recorded; the process closes later. *)
Definition kill (h : nat) (s : state) : state :=
  mkState (activeStreams s) (dirs s) (workers s) (h :: signals s) (nextHandle s).

(** [fs.mkdir(dir, { recursive: true })] when it succeeds. *)
Definition mkdir (dir : string) (s : state) : state :=
  set_dirs ({[dir]} ∪ dirs s) s.

(** [fs.rm(dir, { recursive: true, force: true })]; a failure leaves the
    directory where it is (every caller catches and logs it). *)
Definition rm (e : env) (dir : string) (s : state) : state :=
  if rm_ok e then set_dirs (dirs s ∖ {[dir]}) s else s.

(** ** [startStream] *)

Definition ffmpegArgs (sid src : string) (ignore : bool) : list string :=
  [ "-i"; src; "-c"; "copy"; "-f"; "hls"; "-hls_time"; "4";
    "-hls_list_size"; "5";
    "-hls_flags"; "delete_segments+append_list+discont_start";
    "-hls_segment_type"; "mpegts"; "-hls_init_time"; "4";
    "-hls_playlist_type"; "event"; "-method"; "PUT"; "-timeout"; "10";
    "-reconnect"; "1"; "-reconnect_at_eof"; "1";
    "-reconnect_streamed"; "1"; "-reconnect_delay_max"; "5";
    "-analyzeduration"; "2147483647"; "-probesize"; "2147483647" ]
  ++ (if ignore then ["-xerror"] else [])
  ++ [ "-hls_segment_filename"; path_join (streamDir sid) "segment%d.ts";
       path_join (streamDir sid) "playlist.m3u8" ].

Definition startStream (e : env) (sid src : string) (ignore : bool)
    (s : state) : outcome nat * state :=
  if mkdir_ok e then
    let s1 := mkdir (streamDir sid) s in
    if spawn_ok e then
      let h := nextHandle s1 in
      (Ok h,
       mkState (activeStreams s1) (dirs s1)
         (<[h := mkWorker sid (streamDir sid) (ffmpegArgs sid src ignore)]> (workers s1))
         (signals s1) (S h))
    else (Throw "spawn ffmpeg", s1)
  else (Throw "mkdir", s).

(** The [close] listener registered by [startStream], run when worker [h]
    exits (killed, crashed or finished). *)
Definition on_close (e : env) (h : nat) (s : state) : state :=
  match workers s !! h with
  | None => s
  | Some w =>
      let s1 := mkState (activeStreams s) (dirs s) (delete h (workers s))
                  (signals s) (nextHandle s) in
      match activeStreams s1 !! w_id w with
      | Some x =>
          rm e (w_dir w)
            (set_activeStreams (<[w_id w := set_status "stopped" x]> (activeStreams s1)) s1)
      | None => s1
      end
  end.

(** ** Handlers *)

Record start_req := mkStartReq {
  req_url : option string;
  req_id : option string;
  req_ignoreErrors : bool
}.

Definition view_of (x : stream) : view :=
  mkView (id x) (url x) (proxyUrl x) (status x) (startTime x) (ignoreErrors x).

(** [id || Date.now().toString()] *)
Definition start_id (e : env) (r : start_req) : string :=
  default (date_now e) (truthy (req_id r)).

(** [app.post('/start')] *)
Definition post_start (e : env) (r : start_req) (s : state) : response * state :=
  match truthy (req_url r) with
  | None => (mkResponse 400 (JError "URL is required"), s)
  | Some src =>
      let streamId := start_id e r in
      let s1 :=
        match activeStreams s !! streamId with
        | Some existing =>
            if decide (status existing = "running")
            then kill (process existing) s else s
        | None => s
        end in
      match startStream e streamId src (req_ignoreErrors r) s1 with
      | (Ok ffmpeg, s2) =>
          let x := mkStream streamId src
                     ("/stream/" +:+ streamId +:+ "/playlist.m3u8")
                     ffmpeg "running" (date_iso e) (req_ignoreErrors r) in
          (mkResponse 200 (JStream (view_of x)),
           set_activeStreams (<[streamId := x]> (activeStreams s2)) s2)
      | (Throw msg, s2) => (mkResponse 500 (JError msg), s2)
      end
  end.

(** [app.post('/restart/:id')] *)
Definition post_restart (e : env) (rid : string) (ignore : bool)
    (s : state) : response * state :=
  match activeStreams s !! rid with
  | None => (mkResponse 404 (JError "Stream not found"), s)
  | Some x =>
      let prepared : outcome unit * state :=
        if decide (status x = "running") then
          let s1 := rm e (streamDir rid) (kill (process x) s) in
          if remkdir_ok e then (Ok tt, mkdir (streamDir rid) s1)
          else (Throw "mkdir", s1)
        else (Ok tt, s) in
      match prepared with
      | (Throw msg, s1) => (mkResponse 500 (JError msg), s1)
      | (Ok _, s1) =>
          match startStream e rid (url x) ignore s1 with
          | (Ok ffmpeg, s2) =>
              let x' := mkStream (id x) (url x) (proxyUrl x) ffmpeg "running"
                          (date_iso e) ignore in
              (mkResponse 200
                 (JStream (mkView rid (url x') (proxyUrl x') "running"
                             (startTime x') (ignoreErrors x'))),
               set_activeStreams (<[rid := x']> (activeStreams s2)) s2)
          | (Throw msg, s2) => (mkResponse 500 (JError msg), s2)
          end
      end
  end.

(** [app.post('/stop/:id')] *)
Definition post_stop (sid : string) (s : state) : response * state :=
  match activeStreams s !! sid with
  | None => (mkResponse 404 (JError "Stream not found"), s)
  | Some x =>
      let s1 := kill (process x) s in
      (mkResponse 200 JSuccess,
       set_activeStreams (<[sid := set_status "stopped" x]> (activeStreams s1)) s1)
  end.

(** [app.delete('/stream/:id')] *)
Definition delete_stream (e : env) (sid : string) (s : state) : response * state :=
  match activeStreams s !! sid with
  | None => (mkResponse 404 (JError "Stream not found"), s)
  | Some x =>
      let s1 := if decide (status x = "running") then kill (process x) s else s in
      let s2 := set_activeStreams (delete sid (activeStreams s1)) s1 in
      (mkResponse 200 JSuccess, rm e (streamDir sid) s2)
  end.

(** [app.get('/streams')]: the values of the map, projected.  The map is a
    [gmap], so the sequence comes in key order, not in insertion order. *)
Definition streams_listing (s : state) : list view :=
  view_of <$> (map_to_list (activeStreams s)).*2.

Definition get_streams (s : state) : response * state :=
  (mkResponse 200 (JStreams (streams_listing s)), s).

(** ** Runs *)

Inductive request :=
| Start (r : start_req)
| Restart (rid : string) (ignore : bool)
| Stop (sid : string)
| Delete (sid : string)
| Streams
| Close (h : nat).

Definition step (e : env) (q : request) (s : state) : state :=
  match q with
  | Start r => (post_start e r s).2
  | Restart rid ignore => (post_restart e rid ignore s).2
  | Stop sid => (post_stop sid s).2
  | Delete sid => (delete_stream e sid s).2
  | Streams => (get_streams s).2
  | Close h => on_close e h s
  end.

Fixpoint run (qs : list (env * request)) (s : state) : state :=
  match qs with
  | [] => s
  | (e, q) :: qs' => run qs' (step e q s)
  end.




(** ** Sample inputs *)

Definition env_ok : env :=
  mkEnv true true true true "1700000000000" "2023-11-14T22:13:20.000Z".


Definition req_A : start_req := mkStartReq (Some "http://src/1") (Some "A") false.

(** The registry after session ["A"] was created from the empty state. *)
Definition state_A : state := (post_start env_ok req_A init).2.

End HlsProxy.

Module Backend.

(** ** Data *)

(** An element of the module-level array [streams]; [updateStreamStats]
    writes its [stats] field. *)
Record bstream := mkBstream { b_id : string; b_stats : option string }.

(** A value of [activeStreamsInfo].  The create handler stores all four
    fields; the listing handler may store an object without [startTime]. *)
Record info := mkInfo {
  channelName : option string;
  logo : option string;
  originalUrl : option string;
  i_startTime : option string
}.

(** A channel of the channels cache, as far as the stream handlers read it. *)
Record channel := mkChannel {
  ch_name : string;
  ch_logo : option string;
  ch_url : string
}.

(** An element of the ordered listing sent by [GET /api/streams]. *)
Record item := mkItem {
  it_id : string;
  it_channelName : string;
  it_logo : option string;
  it_url : string;
  it_proxyUrl : string;
  it_startTime : option string;
  it_status : string;
  it_ignoreErrors : bool
}.

Inductive message :=
| MStreamStats (streamId : string) (stats : string)
| MStreams (l : list bstream).

Inductive event :=
| Log (msg : string)
| LogError (msg : string)
| LogPollError (streamId msg : string)
| LogPollResponse (status : nat) (statusText : string)
| HttpGet (target : string)
| HttpPost (target : string)
| HttpDelete (target : string)
| WsSend (client : nat) (m : message).

Record state := mkState {
  streams : list bstream;
  connectedClients : gset nat;
  wssClients : gset nat;            (* [wss.clients] *)
  activePolling : gmap string nat;  (* stream id -> interval timer *)
  intervals : gmap nat string;      (* live [setInterval] timers -> polled id *)
  timeouts : list string;           (* pending [setTimeout] polls *)
  nextTimer : nat;
  activeStreamsInfo : gmap string info;
  streamOrder : list string
}.

Definition init : state := mkState [] ∅ ∅ ∅ ∅ [] 0 ∅ [].

Inductive body :=
| BError (msg : string)
| BSuccess
| BData (v : HlsProxy.view)
| BItems (l : list item).

Record response := mkResponse { code : nat; json : body }.

(** The answer of one poll of the HLS proxy, as axios reports it: a
    resolved 2xx response, or a rejection that carries the response
    (status, status text) when there was one, and the error message. *)
Inductive poll_result :=
| Resolved (status : nat) (data : string)
| Rejected (resp : option (nat * string)) (msg : string).

(** ** State updates *)

Definition set_streams (l : list bstream) (s : state) : state :=
  mkState l (connectedClients s) (wssClients s) (activePolling s) (intervals s)
    (timeouts s) (nextTimer s) (activeStreamsInfo s) (streamOrder s).

Definition set_timeouts (l : list string) (s : state) : state :=
  mkState (streams s) (connectedClients s) (wssClients s) (activePolling s)
    (intervals s) l (nextTimer s) (activeStreamsInfo s) (streamOrder s).

Definition set_activeStreamsInfo (m : gmap string info) (s : state) : state :=
  mkState (streams s) (connectedClients s) (wssClients s) (activePolling s)
    (intervals s) (timeouts s) (nextTimer s) m (streamOrder s).

Definition set_streamOrder (l : list string) (s : state) : state :=
  mkState (streams s) (connectedClients s) (wssClients s) (activePolling s)
    (intervals s) (timeouts s) (nextTimer s) (activeStreamsInfo s) l.

Definition set_clients (c w : gset nat) (s : state) : state :=
  mkState (streams s) c w (activePolling s) (intervals s) (timeouts s)
    (nextTimer s) (activeStreamsInfo s) (streamOrder s).

(** ** Broadcasting *)

(** [broadcastStreamStats]; no handler of the service calls it. *)
Definition broadcastStreamStats (streamId stats : string) (s : state) : list event :=
  (λ c, WsSend c (MStreamStats streamId stats)) <$> elements (connectedClients s).

Definition broadcastStreams (s : state) : list event :=
  (λ c, WsSend c (MStreams (streams s))) <$> elements (wssClients s).

(** ** Polling *)

Definition is_stream (streamId : string) (x : bstream) : bool :=
  bool_decide (b_id x = streamId).

(** [stream.stats = stats] on the first element with that id. *)
Fixpoint write_stats (streamId stats : string) (l : list bstream) : list bstream :=
  match l with
  | [] => []
  | x :: l' =>
      if is_stream streamId x then mkBstream (b_id x) (Some stats) :: l'
      else x :: write_stats streamId stats l'
  end.

Definition updateStreamStats (streamId stats : string) (s : state) : state * list event :=
  match find (is_stream streamId) (streams s) with
  | Some _ =>
      let s1 := set_streams (write_stats streamId stats (streams s)) s in
      (s1, broadcastStreams s1)
  | None => (s, [])
  end.

Definition status_url (streamId : string) : string :=
  "http://hls-proxy:8080/stream/" +:+ streamId +:+ "/status".

Definition pollStreamStatus (r : poll_result) (streamId : string) (s : state)
    : state * list event :=
  match find (is_stream streamId) (streams s) with
  | None => (s, [Log ("Stream " +:+ streamId +:+ " not found, stopping polling")])
  | Some _ =>
      let '(s1, t1) :=
        match r with
        | Resolved status data =>
            if decide (status = 200) then updateStreamStats streamId data s
            else (s, [])
        | Rejected (Some (status, statusText)) msg =>
            if decide (status ≠ 404)
            then (s, [LogPollError streamId msg; LogPollResponse status statusText])
            else (s, [])
        | Rejected None msg => (s, [])
        end in
      let s2 :=
        match find (is_stream streamId) (streams s1) with
        | Some _ => set_timeouts (timeouts s1 ++ [streamId]) s1
        | None => s1
        end in
      (s2, HttpGet (status_url streamId) :: t1)
  end.

Definition startPolling (streamId : string) (s : state) : state * list event :=
  match activePolling s !! streamId with
  | Some _ => (s, [])
  | None =>
      let interval := nextTimer s in
      (mkState (streams s) (connectedClients s) (wssClients s)
         (<[streamId := interval]> (activePolling s))
         (<[interval := streamId]> (intervals s))
         (timeouts s) (S interval) (activeStreamsInfo s) (streamOrder s),
       [Log ("Starting polling for stream " +:+ streamId)])
  end.

(** The value stored in [activePolling] is a Node [Timeout] object, which
    is truthy, so [if (interval)] asks whether the id has an entry. *)
Definition stopPolling (streamId : string) (s : state) : state * list event :=
  match activePolling s !! streamId with
  | Some interval =>
      (mkState (streams s) (connectedClients s) (wssClients s)
         (delete streamId (activePolling s))
         (delete interval (intervals s))
         (timeouts s) (nextTimer s) (activeStreamsInfo s) (streamOrder s),
       [Log ("Stopping polling for stream " +:+ streamId)])
  | None => (s, [])
  end.

(** ** The display order *)

Definition includes (streamId : string) (l : list string) : bool :=
  bool_decide (streamId ∈ l).

Definition updateStreamOrder (streamId : string) (remove : bool) (s : state) : state :=
  if remove then
    set_streamOrder (filter (λ i, i ≠ streamId) (streamOrder s)) s
  else if negb (includes streamId (streamOrder s)) then
    set_streamOrder (streamOrder s ++ [streamId]) s
  else s.

(** [Array.prototype.indexOf]: the first position, or [-1]. *)
Fixpoint indexOf (x : string) (l : list string) : Z :=
  match l with
  | [] => -1
  | y :: l' =>
      if decide (y = x) then 0
      else let i := indexOf x l' in if (i =? -1)%Z then (-1)%Z else (i + 1)%Z
  end.

(** The comparator handed to [sort] by the listing handler. *)
Definition compareStreams (order : list string) (a b : item) : Z :=
  let indexA := indexOf (it_id a) order in
  let indexB := indexOf (it_id b) order in
  if ((indexA =? -1) && (indexB =? -1))%Z then 0%Z
  else if (indexA =? -1)%Z then 1%Z
  else if (indexB =? -1)%Z then (-1)%Z
  else (indexA - indexB)%Z.

(** [Array.prototype.sort] with a comparator.  ECMAScript requires the sort
    to be stable, and for a consistent comparator that fixes the result;
    it is computed here by a stable insertion sort. *)
Fixpoint sort_insert {A} (cmp : A → A → Z) (x : A) (l : list A) : list A :=
  match l with
  | [] => [x]
  | y :: l' =>
      if (cmp x y <=? 0)%Z then x :: y :: l' else y :: sort_insert cmp x l'
  end.

Definition array_sort {A} (cmp : A → A → Z) (l : list A) : list A :=
  foldr (sort_insert cmp) [] l.

(** The sort key the comparator amounts to: the position in the stored
    order; sessions that are not in it come last. *)
Definition rank (order : list string) (a : item) : Z :=
  let i := indexOf (it_id a) order in
  if (i =? -1)%Z then Z.of_nat (length order) else i.

Definition key_le {A} (key : A → Z) (a b : A) : Prop := (key a ≤ key b)%Z.

(** ** Handlers *)

Definition find_channel (src : string) (allChannels : list channel) : option channel :=
  find (λ ch, bool_decide (ch_url ch = src)) allChannels.

(** [app.post('/api/streams')].  [allChannels] is the channels cache,
    flattened; [answer] is what the proxy answered to [POST /start]
    ([None] when axios rejects).  An answer without an id is an answer
    whose id is the empty string. *)
Definition post_streams (now : string) (src : string) (allChannels : list channel)
    (answer : option HlsProxy.view) (s : state) : response * state * list event :=
  let channelInfo := find_channel src allChannels in
  let post := HttpPost "http://hls-proxy:8080/start" in
  match answer with
  | None => (mkResponse 500 (BError "request failed"), s, [post; LogError "Error starting stream:"])
  | Some data =>
      let '(s1, t1) := startPolling (HlsProxy.v_id data) s in
      let s2 :=
        match truthy (Some (HlsProxy.v_id data)) with
        | Some streamId =>
            updateStreamOrder streamId false
              (set_activeStreamsInfo
                 (<[streamId :=
                      mkInfo (Some (from_option ch_name "Unknown Channel" channelInfo))
                        (channelInfo ≫= ch_logo) (Some src) (Some now)]>
                    (activeStreamsInfo s1)) s1)
        | None => s1
        end in
      (mkResponse 200 (BData data), s2, post :: t1)
  end.

(** The body of the [map] callback of the listing handler: decorate one
    stream of the proxy, caching the channel found for it. *)
Definition decorate (allChannels : list channel) (p : HlsProxy.view)
    (m : gmap string info) : item * gmap string info :=
  let storedInfo := default (mkInfo None None None None) (m !! HlsProxy.v_id p) in
  let '(storedInfo', m') :=
    match truthy (channelName storedInfo) with
    | Some _ => (storedInfo, m)
    | None =>
        match find_channel (HlsProxy.v_url p) allChannels with
        | Some ch =>
            let si := mkInfo (Some (ch_name ch)) (ch_logo ch) (Some (ch_url ch))
                        (i_startTime storedInfo) in
            (si, <[HlsProxy.v_id p := si]> m)
        | None => (storedInfo, m)
        end
    end in
  (mkItem (HlsProxy.v_id p)
     (default "Unknown Channel" (truthy (channelName storedInfo')))
     (truthy (logo storedInfo'))
     (default (HlsProxy.v_url p) (truthy (originalUrl storedInfo')))
     ("/stream/" +:+ HlsProxy.v_id p +:+ "/playlist.m3u8")
     (match truthy (i_startTime storedInfo') with
      | Some t => Some t
      | None => truthy (Some (HlsProxy.v_startTime p))
      end)
     (default "unknown" (truthy (Some (HlsProxy.v_status p))))
     (HlsProxy.v_ignoreErrors p),
   m').

Fixpoint decorate_all (allChannels : list channel) (ps : list HlsProxy.view)
    (m : gmap string info) : list item * gmap string info :=
  match ps with
  | [] => ([], m)
  | p :: ps' =>
      let '(it, m1) := decorate allChannels p m in
      let '(its, m2) := decorate_all allChannels ps' m1 in
      (it :: its, m2)
  end.

(** [app.get('/api/streams')] *)
Definition get_streams (allChannels : list channel)
    (answer : option (list HlsProxy.view)) (s : state) : response * state * list event :=
  let get := HttpGet "http://hls-proxy:8080/streams" in
  match answer with
  | None => (mkResponse 500 (BError "request failed"), s, [get; LogError "Error fetching streams:"])
  | Some ps =>
      let '(streamsWithDetails, m) := decorate_all allChannels ps (activeStreamsInfo s) in
      (mkResponse 200
         (BItems (array_sort (compareStreams (streamOrder s)) streamsWithDetails)),
       set_activeStreamsInfo m s, [get])
  end.

(** [app.post('/api/streams/reorder')].  [streamIds] is [None] when the
    body field is not an array. *)
Definition post_reorder (streamIds : option (list string)) (s : state)
    : response * state * list event :=
  match streamIds with
  | None => (mkResponse 400 (BError "streamIds must be an array"), s, [])
  | Some ids =>
      if forallb (λ i, bool_decide (is_Some (activeStreamsInfo s !! i))) ids
      then (mkResponse 200 BSuccess, set_streamOrder ids s, [])
      else (mkResponse 400 (BError "Invalid stream ID in order array"), s, [])
  end.

(** [app.post('/api/streams/:id/stop')]; [ok] tells whether the proxy
    answered the forwarded stop with a 2xx status. *)
Definition post_stop (sid : string) (ok : bool) (s : state)
    : response * state * list event :=
  let post := HttpPost ("http://hls-proxy:8080/stop/" +:+ sid) in
  if ok then
    let '(s1, t1) := stopPolling sid s in
    let s2 := set_activeStreamsInfo (delete sid (activeStreamsInfo s1)) s1 in
    (mkResponse 200 BSuccess, updateStreamOrder sid true s2, post :: t1)
  else (mkResponse 500 (BError "request failed"), s, [post; LogError "Error stopping stream:"]).

(** [app.delete('/api/streams/:id')] *)
Definition delete_streams (sid : string) (stop_ok delete_ok : bool) (s : state)
    : response * state * list event :=
  let post := HttpPost ("http://hls-proxy:8080/stop/" +:+ sid) in
  let del := HttpDelete ("http://hls-proxy:8080/stream/" +:+ sid) in
  if stop_ok then
    if delete_ok then
      let s1 := set_activeStreamsInfo (delete sid (activeStreamsInfo s)) s in
      let s2 := updateStreamOrder sid true s1 in
      let '(s3, t3) := stopPolling sid s2 in
      (mkResponse 200 BSuccess, s3, post :: del :: t3)
    else (mkResponse 500 (BError "request failed"), s,
          [post; del; LogError "Error deleting stream:"])
  else (mkResponse 500 (BError "request failed"), s, [post; LogError "Error deleting stream:"]).

(** [app.post('/api/streams/:id/restart')] *)
Definition post_restart (sid : string) (answer : option HlsProxy.view) (s : state)
    : response * state * list event :=
  let post := HttpPost ("http://hls-proxy:8080/restart/" +:+ sid) in
  match answer with
  | Some data => (mkResponse 200 (BData data), s, [post])
  | None => (mkResponse 500 (BError "request failed"), s, [post])
  end.

(** ** Runs *)

(** The requests and events that touch the stream state.  The provider
    and channel routes only read and write the JSON files of the data
    directory and [providerLoadingStatus]; they are left out. *)
Inductive request :=
| PostStreams (now src : string) (allChannels : list channel) (answer : option HlsProxy.view)
| GetStreams (allChannels : list channel) (answer : option (list HlsProxy.view))
| Reorder (streamIds : option (list string))
| StopStream (sid : string) (ok : bool)
| DeleteStream (sid : string) (stop_ok delete_ok : bool)
| RestartStream (sid : string) (answer : option HlsProxy.view)
| Tick (timer : nat) (r : poll_result)       (* an interval timer fires *)
| Timeout (streamId : string) (r : poll_result) (* a pending timeout fires *)
| WsOpen (client : nat)
| WsClose (client : nat)
| WsError (client : nat).

(** Remove one pending timeout for [streamId]. *)
Fixpoint take_timeout (streamId : string) (l : list string) : option (list string) :=
  match l with
  | [] => None
  | x :: l' =>
      if decide (x = streamId) then Some l'
      else cons x <$> take_timeout streamId l'
  end.

Definition step (q : request) (s : state) : state * list event :=
  match q with
  | PostStreams now src allChannels answer =>
      let '(_, s', t) := post_streams now src allChannels answer s in (s', t)
  | GetStreams allChannels answer =>
      let '(_, s', t) := get_streams allChannels answer s in (s', t)
  | Reorder streamIds =>
      let '(_, s', t) := post_reorder streamIds s in (s', t)
  | StopStream sid ok =>
      let '(_, s', t) := post_stop sid ok s in (s', t)
  | DeleteStream sid stop_ok delete_ok =>
      let '(_, s', t) := delete_streams sid stop_ok delete_ok s in (s', t)
  | RestartStream sid answer =>
      let '(_, s', t) := post_restart sid answer s in (s', t)
  | Tick timer r =>
      match intervals s !! timer with
      | Some streamId => pollStreamStatus r streamId s
      | None => (s, [])
      end
  | Timeout streamId r =>
      match take_timeout streamId (timeouts s) with
      | Some rest => pollStreamStatus r streamId (set_timeouts rest s)
      | None => (s, [])
      end
  | WsOpen client =>
      (set_clients ({[client]} ∪ connectedClients s) ({[client]} ∪ wssClients s) s,
       [Log "New WebSocket connection"])
  | WsClose client =>
      (set_clients (connectedClients s ∖ {[client]}) (wssClients s ∖ {[client]}) s,
       [Log "WebSocket connection closed"])
  | WsError client =>
      (set_clients (connectedClients s ∖ {[client]}) (wssClients s) s,
       [LogError "WebSocket error:"])
  end.

(** The state and the accumulated trace after a sequence of requests. *)
Fixpoint run (qs : list request) (s : state) : state * list event :=
  match qs with
  | [] => (s, [])
  | q :: qs' =>
      let '(s1, t1) := step q s in
      let '(s2, t2) := run qs' s1 in
      (s2, t1 ++ t2)
  end.

Definition is_stats_event (ev : event) : bool :=
  match ev with
  | WsSend _ (MStreamStats _ _) => true
  | _ => false
  end.

Definition is_ws_event (ev : event) : bool :=
  match ev with
  | WsSend _ _ => true
  | _ => false
  end.

Definition is_error_log (ev : event) : bool :=
  match ev with
  | LogError _ | LogPollError _ _ | LogPollResponse _ _ => true
  | _ => false
  end.

(** A request to a [/stream/<id>/status] address of the proxy. *)
Definition is_poll_request (ev : event) : bool :=
  match ev with
  | HttpGet target => String.prefix "http://hls-proxy:8080/stream/" target
  | _ => false
  end.

(** A request that can put [sid] (back) into the stored order. *)
Definition reintroduces (sid : string) (q : request) : Prop :=
  match q with
  | PostStreams _ _ _ (Some data) => HlsProxy.v_id data = sid
  | Reorder (Some ids) => sid ∈ ids
  | _ => False
  end.

(** The timers and the polling table agree, and timer handles are fresh. *)
Definition polling_ok (s : state) : Prop :=
  (∀ t sid, intervals s !! t = Some sid ↔ activePolling s !! sid = Some t)
  ∧ (∀ t : nat, (nextTimer s ≤ t)%nat → intervals s !! t = None).

(** Nothing is in [streams] and no one-shot poll is pending. *)
Definition quiet (s : state) : Prop := streams s = [] ∧ timeouts s = [].

(** An event the polling loop never produces while [streams] is empty. *)
Definition poll_effect (ev : event) : bool :=
  is_ws_event ev || is_stats_event ev || is_poll_request ev.

Definition not_found_log (streamId : string) : event :=
  Log ("Stream " +:+ streamId +:+ " not found, stopping polling").

(** ** Sample inputs *)

Definition view_of_id (sid src : string) : HlsProxy.view :=
  HlsProxy.mkView sid src ("/stream/" +:+ sid +:+ "/playlist.m3u8") "running"
    "2023-11-14T22:13:20.000Z" false.

(** Sessions ["A"], ["B"], ["C"] created in that order. *)
Definition state_ABC : state :=
  (run [ PostStreams "t1" "http://src/1" [] (Some (view_of_id "A" "http://src/1"));
         PostStreams "t2" "http://src/2" [] (Some (view_of_id "B" "http://src/2"));
         PostStreams "t3" "http://src/3" [] (Some (view_of_id "C" "http://src/3")) ]
     init).1.

Definition proxy_ABC : list HlsProxy.view :=
  [ view_of_id "A" "http://src/1"; view_of_id "B" "http://src/2";
    view_of_id "C" "http://src/3" ].

(** The ids of the listing answered in state [s] for the proxy listing [ps]. *)
Definition listing_ids (ps : list HlsProxy.view) (s : state) : list string :=
  match json (get_streams [] (Some ps) s).1.1 with
  | BItems l => it_id <$> l
  | _ => []
  end.

(** A state in which [streams] holds session ["A"], polled by timer 0. *)
Definition state_polled : state :=
  mkState [mkBstream "A" None] ∅ {[7]} {["A" := 0]} {[0 := "A"]} [] 1 ∅ [].

End Backend.

(** * Invariants and footprints of the HLS proxy *)

Module HlsProxyInv.
Import HlsProxy.

(** What every record of the registry looks like: it sits under its own
    id, its playlist address is derived from the id, and its status is
    one of the two strings the service writes. *)
Definition record_ok (k : string) (x : stream) : Prop :=
  id x = k
  ∧ proxyUrl x = "/stream/" +:+ k +:+ "/playlist.m3u8"
  ∧ (status x = "running" ∨ status x = "stopped").

Definition registry_ok (s : state) : Prop :=
  ∀ k x, activeStreams s !! k = Some x → record_ok k x.

(** Child processes and the registry: handles are handed out in
    increasing order, a live worker writes into the directory of the id
    it was spawned for, and the process of a [running] record is a live
    worker spawned for that id. *)
Definition workers_ok (s : state) : Prop :=
  (∀ h w, workers s !! h = Some w →
     h < nextHandle s ∧ w_dir w = streamDir (w_id w))
  ∧ (∀ k x, activeStreams s !! k = Some x →
       process x < nextHandle s
       ∧ (status x = "running" →
          ∃ w, workers s !! process x = Some w ∧ w_id w = k)).


(** The record a successful creation stores. *)
Definition started (e : env) (r : start_req) (src : string) (s : state) : stream :=
  mkStream (start_id e r) src ("/stream/" +:+ start_id e r +:+ "/playlist.m3u8")
    (nextHandle s) "running" (date_iso e) (req_ignoreErrors r).

(** The record a successful restart of [x] stores. *)
Definition restarted (e : env) (x : stream) (ign : bool) (s : state) : stream :=
  mkStream (id x) (url x) (proxyUrl x) (nextHandle s) "running" (date_iso e) ign.

(** An environment in which everything goes through. *)
Definition all_ok (e : env) : Prop :=
  mkdir_ok e = true ∧ remkdir_ok e = true ∧ spawn_ok e = true ∧ rm_ok e = true.

Definition req_B : start_req := mkStartReq (Some "http://src/2") None true.

(** Sessions ["A"] (caller-supplied id) and ["1700000000000"] (generated). *)
Definition state_AB : state :=
  run [(env_ok, Start req_A); (env_ok, Start req_B)] init.

(** Session ["A"] created twice in a row: worker 0 was signalled and
    replaced by worker 1, and has not exited yet. *)
Definition state_AA : state :=
  run [(env_ok, Start req_A); (env_ok, Start req_A)] init.

End HlsProxyInv.

(** * Invariants of the backend *)

Module BackendInv.
Import Backend.

(** The stored order only names sessions the backend has metadata for. *)
Definition order_known (s : state) : Prop :=
  ∀ i, i ∈ streamOrder s → is_Some (activeStreamsInfo s !! i).

(** A request that cannot bring a repeated id into the stored order. *)
Definition reorders_nodup (q : request) : Prop :=
  match q with
  | Reorder (Some ids) => NoDup ids
  | _ => True
  end.

(** The channel name the create handler stores for source [src]. *)
Definition resolved_name (src : string) (allChannels : list channel) : string :=
  from_option ch_name "Unknown Channel" (find_channel src allChannels).

(** The listing answered in state [s], as a list of items. *)
Definition listing_of (allChannels : list channel) (ps : list HlsProxy.view)
    (s : state) : list item :=
  array_sort (compareStreams (streamOrder s))
    (decorate_all allChannels ps (activeStreamsInfo s)).1.

Definition sample_channels : list channel :=
  [ mkChannel "News One" (Some "http://logo/1.png") "http://src/1";
    mkChannel "Second" None "http://src/1";
    mkChannel "Sports" None "http://src/3" ].

End BackendInv.

(** * The streams page and its socket client *)

Module Frontend.

(** ** [handleDragEnd] of the streams page *)

(** The array [items] after the two [splice] calls.  An entry is [None]
    where JavaScript has [undefined], which is what the first [splice]
    yields when [source] is not an index of the array; [splice] clamps a
    start index beyond the end to the end. *)
Definition drag_items (source destination : nat) (streams : list Backend.item)
    : list (option Backend.item) :=
  let items := Some <$> streams in
  let reorderedItem := mjoin (items !! source) in
  let items1 := delete source items in
  take destination items1 ++ reorderedItem :: drop destination items1.

(** [handleDragEnd]: the value of the [streams] state afterwards, and the
    [streamIds] posted to [/api/streams/reorder].  Nothing is posted when
    the drop has no destination, nor when [items.map] throws on an
    [undefined] entry. *)
Definition handleDragEnd (destination : option nat) (source : nat)
    (streams : list Backend.item) : list (option Backend.item) * option (list string) :=
  match destination with
  | None => (Some <$> streams, None)
  | Some d =>
      let items := drag_items source d streams in
      (items, mapM (fmap Backend.it_id) items)
  end.

(** ** [StreamWebSocket] *)

(** The singleton socket client.  [sockets] are the sockets created by
    [connect] whose [close] event has not been delivered yet; [timers]
    are the delays of the reconnections scheduled with [setTimeout].
    Delays are JavaScript numbers; they are integers here, exact as long
    as the doubling does not overflow a double. *)
Record client := mkClient {
  ws : option nat;
  sockets : gset nat;
  listeners : gset nat;
  reconnectAttempts : Z;
  reconnectDelay : Z;
  timers : list Z;
  nextSocket : nat
}.

Definition maxReconnectAttempts : Z := 5.

(** [new StreamWebSocket()] *)
Definition new_client : client := mkClient None ∅ ∅ 0 1000 [] 0.

(** [connect()]: a new socket replaces [this.ws]; the old one, if any, is
    neither closed nor forgotten by the browser. *)
Definition connect (c : client) : client :=
  mkClient (Some (nextSocket c)) ({[nextSocket c]} ∪ sockets c) (listeners c)
    (reconnectAttempts c) (reconnectDelay c) (timers c) (S (nextSocket c)).

(** The [onclose] handler of socket [k]. *)
Definition onclose (k : nat) (c : client) : client :=
  if decide (k ∈ sockets c) then
    mkClient (ws c) (sockets c ∖ {[k]}) (listeners c) (reconnectAttempts c)
      (reconnectDelay c)
      (if (reconnectAttempts c <? maxReconnectAttempts)%Z
       then timers c ++ [reconnectDelay c] else timers c)
      (nextSocket c)
  else c.

(** The callback of the [i]-th pending reconnection timer. *)
Definition timer_fires (i : nat) (c : client) : client :=
  match timers c !! i with
  | Some _ =>
      connect
        (mkClient (ws c) (sockets c) (listeners c) (reconnectAttempts c + 1)
           (reconnectDelay c * 2) (delete i (timers c)) (nextSocket c))
  | None => c
  end.

Definition subscribe (callback : nat) (c : client) : client :=
  mkClient (ws c) (sockets c) ({[callback]} ∪ listeners c) (reconnectAttempts c)
    (reconnectDelay c) (timers c) (nextSocket c).

(** The function returned by [subscribe]. *)
Definition unsubscribe (callback : nat) (c : client) : client :=
  mkClient (ws c) (sockets c) (listeners c ∖ {[callback]}) (reconnectAttempts c)
    (reconnectDelay c) (timers c) (nextSocket c).

(** [disconnect()]: [this.ws.close()] starts the closing of the socket,
    whose [close] event comes later; the fields are reset right away. *)
Definition disconnect (c : client) : client :=
  mkClient None (sockets c) ∅ 0 1000 (timers c) (nextSocket c).

(** The callbacks notified by the [onmessage] handler: all listeners when
    the data parses as JSON, none otherwise. *)
Definition onmessage (valid_json : bool) (c : client) : list nat :=
  if valid_json then elements (listeners c) else [].

Inductive action :=
| Connect
| Disconnect
| Subscribe (callback : nat)
| Unsubscribe (callback : nat)
| Close (socket : nat)
| Timer (i : nat).

Definition act (a : action) (c : client) : client :=
  match a with
  | Connect => connect c
  | Disconnect => disconnect c
  | Subscribe cb => subscribe cb c
  | Unsubscribe cb => unsubscribe cb c
  | Close k => onclose k c
  | Timer i => timer_fires i c
  end.

Definition acts (l : list action) (c : client) : client := foldl (flip act) c l.

(** The page mounts once: one [connect], and no [disconnect] afterwards. *)
Definition single_session (l : list action) : Prop :=
  Forall (λ a, a ≠ Connect ∧ a ≠ Disconnect) l.

(** ** [handleStreamUpdate] of the streams page *)

(** A parsed socket message, as far as the page reads it: [data.type],
    [data.streamId] and the fields of the object [data.stats]. *)
Record ws_message := mkMessage {
  m_type : string;
  m_streamId : string;
  m_stats : gmap string string
}.

(** The updater passed to [setStreamStats]: the new snapshot is spread
    over the stats kept for the stream, and [lastUpdate] over both. *)
Definition handleStreamUpdate (now : string) (data : ws_message)
    (prevStats : gmap string (gmap string string)) : gmap string (gmap string string) :=
  if decide (m_type data = "stream_stats") then
    <[m_streamId data :=
        <["lastUpdate" := now]>
          (m_stats data ∪ default ∅ (prevStats !! m_streamId data))]> prevStats
  else prevStats.

(** The [type] field of the messages the backend sends. *)
Definition message_type (m : Backend.message) : string :=
  match m with
  | Backend.MStreamStats _ _ => "stream_stats"
  | Backend.MStreams _ => "streams"
  end.


(** With one socket at a time: a socket or a pending timer, not both,
    and a timer only while attempts are left. *)
Definition chain_ok (c : client) : Prop :=
  (size (sockets c) + length (timers c) ≤ 1)%nat
  ∧ (reconnectAttempts c ≤ maxReconnectAttempts)%Z
  ∧ (timers c ≠ [] → (reconnectAttempts c < maxReconnectAttempts)%Z).

End Frontend.

(** * Playlist parsing in the backend *)

Module Playlist.

(** [content.split('\n')] *)
Fixpoint split_lines (content : string) : list string :=
  match content with
  | EmptyString => [EmptyString]
  | String c rest =>
      if Ascii.eqb c "010"%char then EmptyString :: split_lines rest
      else match split_lines rest with
           | l :: ls => String c l :: ls
           | [] => [String c EmptyString]
           end
  end.

(** [lines.join('\n')], to build playlists from lines. *)
Fixpoint join_lines (lines : list string) : string :=
  match lines with
  | [] => EmptyString
  | [l] => l
  | l :: ls => l +:+ String "010"%char (join_lines ls)
  end.

Fixpoint no_newline (l : string) : Prop :=
  match l with
  | EmptyString => True
  | String c rest => c ≠ "010"%char ∧ no_newline rest
  end.

(** A channel of [parseM3U], before and after its url line. *)
Record pending := mkPending {
  p_name : string;
  p_logo : string;
  p_group : string;
  p_id : string
}.

Record entry := mkEntry {
  e_name : string;
  e_logo : string;
  e_group : string;
  e_id : string;
  e_url : string
}.

(** A channel of the loop of [loadChannelsForProvider]; the optional
    fields are only set when their attribute matches. *)
Record info := mkInfo {
  i_name : string;
  i_tvgId : option string;
  i_tvgName : option string;
  i_logo : option string;
  i_group : option string
}.

Record loaded := mkLoaded { l_info : info; l_url : string }.

Section parsers.

(** The string primitives of JavaScript the parsers call:
    [String.prototype.trim], and the first capture group, when there is a
    match, of the regular expression for the name (a comma followed by
    the rest of the line) and of those for the quoted values of the
    attributes tvg-logo, group-title, tvg-id and tvg-name. *)
Context (trim : string → string)
        (match_name match_logo match_group match_id match_tvgName
           : string → option string).

Definition entry_of (p : pending) (line : string) : entry :=
  mkEntry (p_name p) (p_logo p) (p_group p) (p_id p) line.

Definition pending_of (line n : string) : pending :=
  mkPending (trim n) (default "" (match_logo line)) (default "" (match_group line))
    (default "" (match_id line)).

(** One turn of the loop of [parseM3U]. *)
Definition parse_line (st : list entry * option pending) (raw : string)
    : list entry * option pending :=
  let line := trim raw in
  if decide (line = "") then st
  else if String.prefix "#EXTINF:" line then
    match match_name line with
    | Some n => (st.1, Some (pending_of line n))
    | None => st
    end
  else if negb (String.prefix "#" line) then
    match st.2 with
    | Some p => (st.1 ++ [entry_of p line], None)
    | None => st
    end
  else st.

Definition parse_lines (lines : list string) : list entry * option pending :=
  foldl parse_line ([], None) lines.

Definition parseM3U (content : string) : list entry :=
  (parse_lines (split_lines content)).1.

Definition info_of (line : string) : info :=
  mkInfo (default "Unknown Channel" (match_name line)) (match_id line)
    (match_tvgName line) (match_logo line) (match_group line).

(** One turn of the parsing loop of [loadChannelsForProvider] (its
    progress reports are left out). *)
Definition load_line (st : list loaded * option info) (raw : string)
    : list loaded * option info :=
  let line := trim raw in
  if String.prefix "#EXTINF:" line then (st.1, Some (info_of line))
  else if String.prefix "http" line then
    match st.2 with
    | Some c => (st.1 ++ [mkLoaded c line], None)
    | None => st
    end
  else st.

Definition load_channels (content : string) : list loaded :=
  (foldl load_line ([], None) (split_lines content)).1.

(** Lines of the three kinds the parsers tell apart. *)
Definition is_header (raw : string) : bool := String.prefix "#EXTINF:" (trim raw).

Definition is_named_header (raw : string) : bool :=
  is_header raw && bool_decide (is_Some (match_name (trim raw))).

Definition is_url_line (raw : string) : bool :=
  negb (bool_decide (trim raw = "")) && negb (String.prefix "#" (trim raw)).

(** Every other line: blank, a comment, or a header without a name. *)
Definition is_skipped (raw : string) : bool :=
  negb (is_named_header raw) && negb (is_url_line raw).

(** A header line with a name followed by a url line. *)
Definition pair_ok (hu : string * string) : Prop :=
  is_named_header hu.1 = true ∧ is_url_line hu.2 = true.

Definition pair_lines (hu : string * string) : list string := [hu.1; hu.2].

Definition pair_entry (hu : string * string) : entry :=
  entry_of (pending_of (trim hu.1) (default "" (match_name (trim hu.1)))) (trim hu.2).

(** Where the channels and the pending channel of a parsing state come
    from, and how many there can be. *)
Definition from_header (seen : list string) (p : pending) : Prop :=
  ∃ h n, h ∈ seen ∧ is_header h = true ∧ match_name (trim h) = Some n
         ∧ p = pending_of (trim h) n.

Definition parse_inv (seen : list string) (st : list entry * option pending) : Prop :=
  (∀ e, e ∈ st.1 →
     ∃ p u, from_header seen p ∧ u ∈ seen ∧ is_url_line u = true
            ∧ e = entry_of p (trim u))
  ∧ (∀ p, st.2 = Some p → from_header seen p)
  ∧ (length st.1 + (match st.2 with Some _ => 1 | None => 0 end)
     ≤ length (filter (λ l, is_named_header l = true) seen))%nat
  ∧ (length st.1 ≤ length (filter (λ l, is_url_line l = true) seen))%nat.

(** The same for the loop of [loadChannelsForProvider]. *)
Definition load_inv (seen : list string) (st : list loaded * option info) : Prop :=
  (∀ c, c ∈ st.1 →
     String.prefix "http" (l_url c) = true
     ∧ ∃ h u, h ∈ seen ∧ u ∈ seen ∧ is_header h = true
              ∧ l_info c = info_of (trim h) ∧ l_url c = trim u)
  ∧ (∀ i, st.2 = Some i → ∃ h, h ∈ seen ∧ is_header h = true ∧ i = info_of (trim h))
  ∧ (length st.1 + (match st.2 with Some _ => 1 | None => 0 end)
     ≤ length (filter (λ l, is_header l = true) seen))%nat.

(** A line on which the two parsers take the same branch: a header has
    a name, a url line starts with http. *)
Definition plain_line (raw : string) : Prop :=
  (is_header raw = true → is_named_header raw = true)
  ∧ (is_url_line raw = true → String.prefix "http" (trim raw) = true).

(** A channel of [loadChannelsForProvider] read as one of [parseM3U]. *)
Definition to_pending (i : info) : pending :=
  mkPending (trim (i_name i)) (default "" (i_logo i)) (default "" (i_group i))
    (default "" (i_tvgId i)).

Definition to_entry (c : loaded) : entry := entry_of (to_pending (l_info c)) (l_url c).

Definition agree (st1 : list entry * option pending) (st2 : list loaded * option info)
    : Prop :=
  st1.1 = to_entry <$> st2.1 ∧ st1.2 = to_pending <$> st2.2.

End parsers.

(** Sample primitives: no trimming; the name is what follows the first
    comma; no attribute matches. *)
Fixpoint after_comma (l : string) : option string :=
  match l with
  | EmptyString => None
  | String c rest =>
      if Ascii.eqb c ","%char then (if decide (rest = "") then None else Some rest)
      else after_comma rest
  end.

Definition no_match (l : string) : option string := None.

Definition sample_lines : list string :=
  ["#EXTM3U"; "#EXTINF:-1,One"; "http://a/1"; ""; "#EXTINF:-1,Two"; "http://a/2"].

Definition sample_entries : list entry :=
  [mkEntry "One" "" "" "" "http://a/1"; mkEntry "Two" "" "" "" "http://a/2"].

End Playlist.

(** * Properties of the HLS proxy *)

Module HlsProxyFacts.
Import HlsProxy.




Lemma rm_activeStreams e dir s : activeStreams (rm e dir s) = activeStreams s.
Proof. unfold rm. by case_match. Qed.








(** Stopping a running session and letting the signalled worker exit: the
    working area is on disk right after the stop handler and gone once
    the [close] listener has run. *)
Lemma stop_then_worker_exit_removes_working_area :
  let s1 := (post_stop "A" state_A).2 in
  bool_decide (streamDir "A" ∈ dirs state_A) = true
  ∧ bool_decide (streamDir "A" ∈ dirs s1) = true
  ∧ signals s1 = [0]
  ∧ w_id <$> workers s1 !! 0 = Some "A"
  ∧ bool_decide (streamDir "A" ∈ dirs (on_close env_ok 0 s1)) = false.
Proof. vm_compute. done. Qed.

(** C5 (amended).  Stopping an existing session signals its worker, answers
    success and sets the record's status to [stopped]; every other field,
    every other record, the working areas on disk and the set of live
    workers are as before.  A second stop answers success again and leaves
    registry and disk as the first one left them.  The working area does
    not outlive the worker: once the worker exits, its [close] listener
    removes the directory (the record stays, [stopped]). *)
Theorem stop_marks_stopped sid s x :
  activeStreams s !! sid = Some x →
  let s1 := (post_stop sid s).2 in
  let s2 := (post_stop sid s1).2 in
  (post_stop sid s).1 = mkResponse 200 JSuccess
  ∧ activeStreams s1 = <[sid := set_status "stopped" x]> (activeStreams s)
  ∧ dirs s1 = dirs s
  ∧ workers s1 = workers s
  ∧ signals s1 = process x :: signals s
  ∧ (post_stop sid s1).1 = mkResponse 200 JSuccess
  ∧ activeStreams s2 = activeStreams s1
  ∧ dirs s2 = dirs s1
  ∧ (∀ e w, workers s !! process x = Some w →
       w_id w = sid → w_dir w = streamDir sid → rm_ok e = true →
       (streamDir sid ∉ dirs (on_close e (process x) s1))
       ∧ activeStreams (on_close e (process x) s1) = activeStreams s1).
Proof.
  intros Hx. unfold post_stop. rewrite Hx. simpl.
  rewrite lookup_insert_eq. simpl. rewrite insert_insert_eq.
  do 8 (split; [done|]).
  intros e w Hw Hid Hdir Hrm. unfold on_close. simpl. rewrite Hw. simpl.
  rewrite Hid, lookup_insert_eq, Hdir. split.
  - unfold rm. rewrite Hrm. simpl.
    apply not_elem_of_difference. right. by apply elem_of_singleton.
  - rewrite rm_activeStreams. simpl. by rewrite insert_insert_eq.
Qed.

Lemma stop_marks_stopped_witness :
  status <$> activeStreams (post_stop "A" state_A).2 !! "A" = Some "stopped"
  ∧ dirs (post_stop "A" state_A).2 = dirs state_A.
Proof.
  assert (Hx : activeStreams state_A !! "A"
               = Some (mkStream "A" "http://src/1" "/stream/A/playlist.m3u8" 0
                         "running" "2023-11-14T22:13:20.000Z" false))
    by reflexivity.
  destruct (stop_marks_stopped "A" state_A _ Hx) as (_ & Hreg & Hdirs & _).
  split; [|exact Hdirs]. rewrite Hreg. by rewrite lookup_insert_eq.
Defined.











End HlsProxyFacts.

(** * Properties of the backend *)

Module BackendFacts.
Import Backend.

(** ** [indexOf] *)

Lemma indexOf_range x l : (-1 ≤ indexOf x l < Z.of_nat (length l))%Z.
Proof.
  induction l as [|y l IH]; simpl; [lia|].
  destruct (decide (y = x)); [lia|].
  destruct (Z.eqb_spec (indexOf x l) (-1)); lia.
Qed.

Lemma indexOf_absent x l : indexOf x l = (-1)%Z ↔ x ∉ l.
Proof.
  induction l as [|y l IH]; simpl.
  - split; [intros _; apply not_elem_of_nil|done].
  - rewrite not_elem_of_cons. destruct (decide (y = x)) as [->|Hne].
    + split; [lia|intros [? _]; done].
    + pose proof (indexOf_range x l).
      destruct (Z.eqb_spec (indexOf x l) (-1)) as [Heq|Hneq].
      * split; [intros _|done]. split; [done|by apply IH].
      * split; [lia|]. intros [_ Hx]. apply IH in Hx. lia.
Qed.

(** [indexOf] is the position of the first occurrence. *)
Lemma indexOf_first x l :
  x ∈ l →
  ∃ n, indexOf x l = Z.of_nat n ∧ l !! n = Some x
       ∧ ∀ m, m < n → l !! m ≠ Some x.
Proof.
  induction l as [|y l IH]; [by intros ?%elem_of_nil|].
  intros Hin. simpl. destruct (decide (y = x)) as [->|Hne].
  - exists 0. split; [done|]. split; [done|]. intros m Hm. lia.
  - apply elem_of_cons in Hin as [->|Hin]; [done|].
    destruct (IH Hin) as (n & Hn & Hl & Hfirst). exists (S n).
    rewrite Hn. destruct (Z.eqb_spec (Z.of_nat n) (-1)); [lia|].
    split; [lia|]. split; [done|].
    intros [|m] Hm; simpl; [congruence|]. apply Hfirst. lia.
Qed.

(** ** The comparator as a sort key *)

Lemma rank_absent order a :
  rank order a = Z.of_nat (length order) ↔ it_id a ∉ order.
Proof.
  unfold rank. rewrite <- indexOf_absent.
  pose proof (indexOf_range (it_id a) order).
  destruct (Z.eqb_spec (indexOf (it_id a) order) (-1)); split; (done || lia).
Qed.

Lemma compareStreams_rank order a b :
  (compareStreams order a b <=? 0)%Z = (rank order a <=? rank order b)%Z.
Proof.
  unfold compareStreams, rank.
  pose proof (indexOf_range (it_id a) order).
  pose proof (indexOf_range (it_id b) order).
  destruct (Z.eqb_spec (indexOf (it_id a) order) (-1));
    destruct (Z.eqb_spec (indexOf (it_id b) order) (-1)); simpl;
    repeat match goal with |- context [(?x <=? ?y)%Z] =>
      destruct (Z.leb_spec x y) end; done || lia.
Qed.

(** ** Stable insertion sort under a key *)

Section sort_by_key.
Context {A : Type} (cmp : A → A → Z) (key : A → Z).
Hypothesis cmp_key : ∀ a b, (cmp a b <=? 0)%Z = (key a <=? key b)%Z.

Lemma sort_insert_perm x l : sort_insert cmp x l ≡ₚ x :: l.
Proof.
  induction l as [|y l IH]; simpl; [done|].
  case_match; [done|]. rewrite IH. apply Permutation_swap.
Qed.

Lemma array_sort_perm l : array_sort cmp l ≡ₚ l.
Proof.
  induction l as [|x l IH]; simpl; [done|].
  rewrite sort_insert_perm. by rewrite IH.
Qed.

Lemma sort_insert_sorted x l :
  StronglySorted (key_le key) l → StronglySorted (key_le key) (sort_insert cmp x l).
Proof.
  induction 1 as [|y l Hl IH Hy]; simpl.
  - repeat constructor.
  - rewrite cmp_key. destruct (Z.leb_spec (key x) (key y)) as [Hle|Hlt].
    + constructor; [by constructor|]. constructor; [done|].
      eapply Forall_impl; [exact Hy|]. unfold key_le. intros; lia.
    + constructor; [done|].
      rewrite sort_insert_perm. constructor; [unfold key_le; lia|done].
Qed.

Lemma array_sort_sorted l : StronglySorted (key_le key) (array_sort cmp l).
Proof.
  induction l as [|x l IH]; simpl; [constructor|]. by apply sort_insert_sorted.
Qed.

Lemma sorted_lookup l : StronglySorted (key_le key) l →
  ∀ i j a b, l !! i = Some a → l !! j = Some b → i < j → (key a ≤ key b)%Z.
Proof.
  induction 1 as [|y l Hl IH Hy]; intros i j a b Hi Hj Hij; [done|].
  destruct j as [|j]; [lia|]. simpl in Hj. destruct i as [|i]; simpl in Hi.
  - injection Hi as ->. rewrite Forall_forall in Hy. apply Hy.
    by eapply list_elem_of_lookup_2.
  - eapply IH; eauto. lia.
Qed.

(** Stability: the elements of one key keep the order they came in. *)
Lemma sort_insert_stable k x l :
  filter (λ a, key a = k) (sort_insert cmp x l)
  = filter (λ a, key a = k) (x :: l).
Proof.
  induction l as [|y l IH]; simpl; [done|].
  rewrite cmp_key. destruct (Z.leb_spec (key x) (key y)) as [Hle|Hlt]; [done|].
  rewrite filter_cons, IH, !filter_cons.
  repeat case_decide; done || lia.
Qed.

Lemma array_sort_stable k l :
  filter (λ a, key a = k) (array_sort cmp l) = filter (λ a, key a = k) l.
Proof.
  induction l as [|x l IH]; simpl; [done|].
  rewrite sort_insert_stable, !filter_cons. by rewrite IH.
Qed.

End sort_by_key.

(** ** The ordered listing *)

Lemma decorate_all_ids allChannels ps : ∀ m,
  it_id <$> (decorate_all allChannels ps m).1 = HlsProxy.v_id <$> ps.
Proof.
  induction ps as [|p ps IH]; intros m; simpl; [done|].
  destruct (decorate allChannels p m) as [it m1] eqn:Hd.
  specialize (IH m1). destruct (decorate_all allChannels ps m1) as [its m2].
  simpl in *. f_equal; [|done].
  unfold decorate in Hd. repeat case_match; by simplify_eq.
Qed.

Lemma sorted_listing_split order (items : list item) i j a b :
  let listing := array_sort (compareStreams order) items in
  listing !! i = Some a → listing !! j = Some b →
  it_id a ∈ order → it_id b ∉ order → i < j.
Proof.
  intros listing Hi Hj Ha Hb.
  destruct (decide (i < j)) as [|Hge]; [done|]. exfalso.
  assert (j ≠ i) by (intros ->; congruence).
  pose proof (sorted_lookup (rank order) _
                (array_sort_sorted _ _ (compareStreams_rank order) items)
                j i b a Hj Hi ltac:(lia)) as Hle.
  apply rank_absent in Hb.
  assert (rank order a ≠ Z.of_nat (length order)) by (by rewrite rank_absent; auto).
  pose proof (indexOf_range (it_id a) order). unfold rank in *.
  destruct (Z.eqb_spec (indexOf (it_id a) order) (-1)); lia.
Qed.

Lemma listing_follows_order_response allChannels ps s :
  (get_streams allChannels (Some ps) s).1.1
  = mkResponse 200
      (BItems (array_sort (compareStreams (streamOrder s))
                 (decorate_all allChannels ps (activeStreamsInfo s)).1)).
Proof.
  unfold get_streams.
  by destruct (decorate_all allChannels ps (activeStreamsInfo s)).
Qed.

(** C9.  The listing handler answers with the decorated sessions of the
    proxy, sorted by the comparator: the same sessions, those whose id is
    in the stored order before all the others, the former by increasing
    position of their id in the stored order, the latter in the order
    the proxy listed them. *)
Theorem listing_follows_stored_order allChannels ps s :
  let items := (decorate_all allChannels ps (activeStreamsInfo s)).1 in
  let order := streamOrder s in
  let listing := array_sort (compareStreams order) items in
  (get_streams allChannels (Some ps) s).1.1 = mkResponse 200 (BItems listing)
  ∧ it_id <$> items = HlsProxy.v_id <$> ps
  ∧ listing ≡ₚ items
  ∧ (∀ i j a b, listing !! i = Some a → listing !! j = Some b →
       it_id a ∈ order → it_id b ∉ order → i < j)
  ∧ (∀ i j a b, listing !! i = Some a → listing !! j = Some b → i < j →
       it_id a ∈ order → it_id b ∈ order →
       (indexOf (it_id a) order ≤ indexOf (it_id b) order)%Z)
  ∧ filter (λ a, it_id a ∉ order) listing = filter (λ a, it_id a ∉ order) items.
Proof.
  intros items order listing.
  split.
  { unfold get_streams. subst listing items order.
    by destruct (decorate_all allChannels ps (activeStreamsInfo s)). }
  split; [apply decorate_all_ids|].
  split; [apply array_sort_perm|].
  split; [apply sorted_listing_split|].
  split.
  - intros i j a b Hi Hj Hij Ha Hb.
    pose proof (sorted_lookup (rank order) _
                  (array_sort_sorted _ _ (compareStreams_rank order) items)
                  i j a b Hi Hj Hij) as Hle.
    unfold rank in Hle.
    assert (indexOf (it_id a) order ≠ (-1)%Z) by (rewrite indexOf_absent; auto).
    assert (indexOf (it_id b) order ≠ (-1)%Z) by (rewrite indexOf_absent; auto).
    destruct (Z.eqb_spec (indexOf (it_id a) order) (-1)); [done|].
    by destruct (Z.eqb_spec (indexOf (it_id b) order) (-1)).
  - rewrite !(list_filter_iff (λ a, it_id a ∉ order)
                (λ a, rank order a = Z.of_nat (length order)))
      by (intros; by rewrite rank_absent).
    by apply array_sort_stable, compareStreams_rank.
Qed.

(** The ordering scenario of the specification: sessions created as
    A, B, C are listed in that order; after a reorder to C, A, B the
    listing follows it; after A is deleted the listing is C, B. *)
Example listing_scenario :
  listing_ids proxy_ABC state_ABC = ["A"; "B"; "C"]
  ∧ listing_ids proxy_ABC (run [Reorder (Some ["C"; "A"; "B"])] state_ABC).1
    = ["C"; "A"; "B"]
  ∧ listing_ids [view_of_id "B" "http://src/2"; view_of_id "C" "http://src/3"]
      (run [Reorder (Some ["C"; "A"; "B"]); DeleteStream "A" true true] state_ABC).1
    = ["C"; "B"].
Proof. by vm_compute. Qed.

Lemma listing_follows_stored_order_witness :
  listing_ids proxy_ABC (post_reorder (Some ["C"; "A"]) state_ABC).1.2 = ["C"; "A"; "B"]
  ∧ (∀ i j a b,
       array_sort (compareStreams ["C"; "A"])
         (decorate_all [] proxy_ABC (activeStreamsInfo state_ABC)).1 !! i = Some a →
       array_sort (compareStreams ["C"; "A"])
         (decorate_all [] proxy_ABC (activeStreamsInfo state_ABC)).1 !! j = Some b →
       it_id a ∈ ["C"; "A"] → it_id b ∉ ["C"; "A"] → i < j).
Proof.
  split; [reflexivity|].
  pose proof (listing_follows_stored_order [] proxy_ABC
                (post_reorder (Some ["C"; "A"]) state_ABC).1.2) as H.
  exact (proj1 (proj2 (proj2 (proj2 H)))).
Defined.

(** ** Reordering *)

(** C2.  A reorder request that names an id without an entry in
    [activeStreamsInfo] is answered with a 400 validation error and leaves
    the whole state, the stored order included, as it was; when every id
    has an entry the stored order becomes exactly the given list and
    nothing else changes; the stored order changes in no other case. *)
Theorem reorder_all_or_nothing streamIds s :
  let known := λ i, is_Some (activeStreamsInfo s !! i) in
  (∀ ids, streamIds = Some ids → Exists (λ i, ¬ known i) ids →
     post_reorder streamIds s
     = (mkResponse 400 (BError "Invalid stream ID in order array"), s, []))
  ∧ (∀ ids, streamIds = Some ids → Forall known ids →
       post_reorder streamIds s
       = (mkResponse 200 BSuccess, set_streamOrder ids s, []))
  ∧ (streamOrder (post_reorder streamIds s).1.2 ≠ streamOrder s →
       ∃ ids, streamIds = Some ids ∧ Forall known ids
              ∧ streamOrder (post_reorder streamIds s).1.2 = ids).
Proof.
  intros known.
  assert (Hall : ∀ ids,
    forallb (λ i, bool_decide (is_Some (activeStreamsInfo s !! i))) ids = true
    ↔ Forall known ids).
  { intros ids. rewrite forallb_forall, Forall_forall. unfold known.
    split; intros H i Hi.
    - apply list_elem_of_In, H in Hi. by apply bool_decide_eq_true in Hi.
    - apply bool_decide_eq_true, H. by apply list_elem_of_In. }
  split; [|split].
  - intros ids -> Hex. unfold post_reorder.
    destruct (forallb _ ids) eqn:Hf; [|done].
    apply Hall in Hf. apply Exists_exists in Hex as (i & Hi & Hn).
    rewrite Forall_forall in Hf. by specialize (Hf i Hi).
  - intros ids -> Hf. unfold post_reorder. apply Hall in Hf. by rewrite Hf.
  - unfold post_reorder. destruct streamIds as [ids|]; [|done].
    destruct (forallb _ ids) eqn:Hf; [|done].
    intros _. exists ids. by apply Hall in Hf.
Qed.

Lemma reorder_all_or_nothing_witness :
  post_reorder (Some ["C"; "Z"; "A"]) state_ABC
  = (mkResponse 400 (BError "Invalid stream ID in order array"), state_ABC, [])
  ∧ streamOrder (post_reorder (Some ["C"; "A"; "B"]) state_ABC).1.2 = ["C"; "A"; "B"].
Proof.
  destruct (reorder_all_or_nothing (Some ["C"; "Z"; "A"]) state_ABC) as (Hbad & _).
  destruct (reorder_all_or_nothing (Some ["C"; "A"; "B"]) state_ABC) as (_ & Hgood & _).
  split.
  - apply (Hbad _ eq_refl). apply Exists_cons_tl, Exists_cons_hd.
    intros [x Hx]. vm_compute in Hx. discriminate.
  - rewrite (Hgood _ eq_refl); [reflexivity|].
    repeat (apply List.Forall_cons; [vm_compute; eauto|]). apply List.Forall_nil.
Defined.

(** ** What the handlers leave alone *)

Lemma startPolling_frame sid s :
  let s' := (startPolling sid s).1 in
  streams s' = streams s ∧ timeouts s' = timeouts s
  ∧ activeStreamsInfo s' = activeStreamsInfo s ∧ streamOrder s' = streamOrder s
  ∧ Forall (λ ev, poll_effect ev = false) (startPolling sid s).2.
Proof. unfold startPolling. case_match; simpl; repeat split; by repeat constructor. Qed.

Lemma stopPolling_frame sid s :
  let s' := (stopPolling sid s).1 in
  streams s' = streams s ∧ timeouts s' = timeouts s
  ∧ activeStreamsInfo s' = activeStreamsInfo s ∧ streamOrder s' = streamOrder s
  ∧ Forall (λ ev, poll_effect ev = false) (stopPolling sid s).2.
Proof. unfold stopPolling. case_match; simpl; repeat split; by repeat constructor. Qed.

Lemma pollStreamStatus_quiet r sid s :
  streams s = [] → pollStreamStatus r sid s = (s, [not_found_log sid]).
Proof. intros Hs. unfold pollStreamStatus. by rewrite Hs. Qed.

Lemma step_quiet q s :
  quiet s →
  quiet (step q s).1 ∧ Forall (λ ev, poll_effect ev = false) (step q s).2.
Proof.
  intros [Hs Ht]. unfold quiet.
  destruct q; simpl;
    unfold post_streams, get_streams, post_reorder, post_stop, delete_streams,
      post_restart, startPolling, stopPolling, updateStreamOrder, pollStreamStatus;
    rewrite ?Hs, ?Ht; simpl;
    repeat case_match; simplify_eq; simpl;
    (split; [by split|by repeat constructor]).
Qed.

Lemma run_quiet qs : ∀ s,
  quiet s →
  quiet (run qs s).1 ∧ Forall (λ ev, poll_effect ev = false) (run qs s).2.
Proof.
  induction qs as [|q qs IH]; intros s Hs; simpl; [by split|].
  destruct (step_quiet q s Hs) as [Hs1 Ht1].
  destruct (step q s) as [s1 t1]. simpl in *.
  destruct (IH s1 Hs1) as [Hs2 Ht2].
  destruct (run qs s1) as [s2 t2]. simpl in *.
  split; [done|]. by apply Forall_app.
Qed.

(** C3.  Whatever requests, timer ticks and socket events the backend has
    served, [streams] is still empty and no one-shot poll is pending; a
    poll of any session then returns at the not-found guard, whatever the
    proxy would have answered, leaving the state as it is and emitting
    nothing but the not-found log line; and the whole trace holds no
    status request to the proxy and no message sent to an observer. *)
Theorem streams_stays_empty qs :
  let s := (run qs init).1 in
  streams s = []
  ∧ timeouts s = []
  ∧ (∀ r sid, pollStreamStatus r sid s = (s, [not_found_log sid]))
  ∧ (∀ timer r, step (Tick timer r) s = (s, [])
                ∨ ∃ sid, intervals s !! timer = Some sid
                         ∧ step (Tick timer r) s = (s, [not_found_log sid]))
  ∧ Forall (λ ev, is_poll_request ev = false ∧ is_stats_event ev = false
                  ∧ is_ws_event ev = false) (run qs init).2.
Proof.
  destruct (run_quiet qs init) as [[Hs Ht] Htr]; [done|].
  cbv zeta. split; [done|]. split; [done|].
  split; [intros; by apply pollStreamStatus_quiet|]. split.
  - intros timer r. simpl. destruct (intervals _ !! timer) as [sid|]; [|by left].
    right. exists sid. split; [done|]. by apply pollStreamStatus_quiet.
  - eapply Forall_impl; [exact Htr|]. intros ev. unfold poll_effect.
    destruct (is_ws_event ev), (is_stats_event ev), (is_poll_request ev); naive_solver.
Qed.

(** ** Polling timers *)

Lemma startPolling_ok sid s : polling_ok s → polling_ok (startPolling sid s).1.
Proof.
  intros [Hbij Hfresh]. unfold startPolling.
  destruct (activePolling s !! sid) as [t0|] eqn:Hsid; [done|].
  split; simpl.
  - intros t sid'. destruct (decide (t = nextTimer s)) as [->|Ht].
    + rewrite lookup_insert_eq. destruct (decide (sid' = sid)) as [->|Hs].
      * by rewrite lookup_insert_eq.
      * rewrite lookup_insert_ne by done. split; [congruence|].
        intros H%Hbij. rewrite Hfresh in H by lia. done.
    + rewrite lookup_insert_ne by done. destruct (decide (sid' = sid)) as [->|Hs].
      * rewrite lookup_insert_eq. split; [|congruence].
        intros H%Hbij. congruence.
      * rewrite lookup_insert_ne by done. apply Hbij.
  - intros t Ht. rewrite lookup_insert_ne by lia. apply Hfresh. lia.
Qed.

Lemma stopPolling_ok sid s : polling_ok s → polling_ok (stopPolling sid s).1.
Proof.
  intros [Hbij Hfresh]. unfold stopPolling.
  destruct (activePolling s !! sid) as [t0|] eqn:Hsid; [|done].
  split; simpl.
  - intros t sid'. rewrite lookup_delete_Some, lookup_delete_Some, Hbij.
    split; intros [Hne H]; (split; [|done]); intros ->.
    + rewrite Hsid in H. congruence.
    + apply Hbij in Hsid. apply Hbij in H. congruence.
  - intros t Ht. apply lookup_delete_None. right. by apply Hfresh.
Qed.

Lemma polling_ok_same s s' :
  activePolling s' = activePolling s → intervals s' = intervals s →
  nextTimer s' = nextTimer s → polling_ok s → polling_ok s'.
Proof. unfold polling_ok. by intros -> -> ->. Qed.

Lemma pollStreamStatus_timers r sid s :
  let s' := (pollStreamStatus r sid s).1 in
  activePolling s' = activePolling s ∧ intervals s' = intervals s
  ∧ nextTimer s' = nextTimer s.
Proof.
  unfold pollStreamStatus, updateStreamStats. by repeat case_match; simplify_eq.
Qed.

Lemma step_polling_ok q s : polling_ok s → polling_ok (step q s).1.
Proof.
  intros Hok. destruct q; simpl;
    unfold post_streams, get_streams, post_reorder, post_stop, delete_streams,
      post_restart.
  - destruct answer as [data|]; [|done].
    pose proof (startPolling_ok (HlsProxy.v_id data) s Hok) as H1.
    destruct (startPolling (HlsProxy.v_id data) s) as [s1 t1]. simpl in *.
    case_match; [|done].
    eapply polling_ok_same; [..|exact H1]; by (unfold updateStreamOrder; repeat case_match).
  - destruct answer as [ps|]; [|done].
    by destruct (decorate_all allChannels ps (activeStreamsInfo s)).
  - destruct streamIds as [ids|]; [|done]. by destruct (forallb _ ids).
  - destruct ok; [|done].
    pose proof (stopPolling_ok sid s Hok) as H1.
    destruct (stopPolling sid s) as [s1 t1]. simpl in *.
    eapply polling_ok_same; [..|exact H1]; by (unfold updateStreamOrder; repeat case_match).
  - destruct stop_ok, delete_ok; try done.
    match goal with |- context [stopPolling sid ?s0] =>
      pose proof (stopPolling_ok sid s0) as H1;
      destruct (stopPolling sid s0) as [s3 t3] end.
    simpl in *. apply H1.
    eapply polling_ok_same; [..|exact Hok]; by (unfold updateStreamOrder; repeat case_match).
  - by destruct answer.
  - case_match; [|done].
    eapply polling_ok_same; [..|exact Hok]; by apply pollStreamStatus_timers.
  - case_match; [|done].
    match goal with |- context [pollStreamStatus r streamId ?s0] =>
      eapply (polling_ok_same s0); [..|done];
      by apply pollStreamStatus_timers end.
  - done.
  - done.
  - done.
Qed.

Lemma run_polling_ok qs : ∀ s, polling_ok s → polling_ok (run qs s).1.
Proof.
  induction qs as [|q qs IH]; intros s Hs; simpl; [done|].
  pose proof (step_polling_ok q s Hs) as H1.
  destruct (step q s) as [s1 t1]. specialize (IH s1 H1).
  by destruct (run qs s1).
Qed.

Lemma init_polling_ok : polling_ok init.
Proof. split; intros; simpl; by rewrite ?lookup_empty. Qed.

(** C8.  In every state the backend can reach, a session id is polled by
    at most one interval timer, the one recorded for it in
    [activePolling], and no one-shot poll is pending.  Starting the polling
    of an id that has a timer changes nothing; starting it for an id
    without one creates a single timer; stopping the polling of an id
    without a timer changes nothing; stopping it for an id with a timer
    clears that timer and forgets it, so that no timer polls the id
    afterwards and a second stop changes nothing. *)
Theorem one_polling_loop_per_stream qs :
  let s := (run qs init).1 in
  (∀ t1 t2 sid, intervals s !! t1 = Some sid → intervals s !! t2 = Some sid → t1 = t2)
  ∧ timeouts s = []
  ∧ (∀ sid, is_Some (activePolling s !! sid) → startPolling sid s = (s, []))
  ∧ (∀ sid, activePolling s !! sid = None →
       stopPolling sid s = (s, [])
       ∧ (∀ t, intervals s !! t ≠ Some sid)
       ∧ intervals (startPolling sid s).1 = <[nextTimer s := sid]> (intervals s)
       ∧ intervals s !! nextTimer s = None)
  ∧ (∀ sid t, activePolling s !! sid = Some t →
       let s' := (stopPolling sid s).1 in
       intervals s !! t = Some sid
       ∧ intervals s' = delete t (intervals s)
       ∧ activePolling s' = delete sid (activePolling s)
       ∧ (∀ t', intervals s' !! t' ≠ Some sid)
       ∧ stopPolling sid s' = (s', [])).
Proof.
  pose proof (run_polling_ok qs init init_polling_ok) as [Hbij Hfresh].
  destruct (run_quiet qs init) as [[_ Ht] _]; [done|].
  cbv zeta. set (s := (run qs init).1) in *.
  split; [|split; [done|split; [|split]]].
  - intros t1 t2 sid H1%Hbij H2%Hbij. congruence.
  - intros sid [t Hsid]. unfold startPolling. by rewrite Hsid.
  - intros sid Hsid. unfold stopPolling, startPolling. rewrite Hsid.
    split; [done|]. split; [|split; [done|by apply Hfresh]].
    intros t H%Hbij. congruence.
  - intros sid t Hsid. unfold stopPolling. rewrite Hsid. simpl.
    rewrite lookup_delete_eq. split; [by apply Hbij|].
    split; [done|]. split; [done|]. split; [|done].
    intros t' [Hne H%Hbij]%lookup_delete_Some. congruence.
Qed.

Lemma one_polling_loop_per_stream_witness :
  startPolling "A" state_ABC = (state_ABC, [])
  ∧ intervals (stopPolling "A" state_ABC).1 = delete 0 (intervals state_ABC).
Proof.
  pose proof (one_polling_loop_per_stream
    [ PostStreams "t1" "http://src/1" [] (Some (view_of_id "A" "http://src/1"));
      PostStreams "t2" "http://src/2" [] (Some (view_of_id "B" "http://src/2"));
      PostStreams "t3" "http://src/3" [] (Some (view_of_id "C" "http://src/3")) ])
    as (_ & _ & Hstart & _ & Hstop).
  split.
  - apply Hstart. vm_compute. eauto.
  - apply (Hstop "A" 0). reflexivity.
Defined.

(** ** Stopping a stream through the backend *)

Lemma updateStreamOrder_keeps_out sid x remove s :
  (remove = false → x ≠ sid) →
  sid ∉ streamOrder s → sid ∉ streamOrder (updateStreamOrder x remove s).
Proof.
  intros Hx Hs. unfold updateStreamOrder. destruct remove; simpl.
  - rewrite list_elem_of_filter. by intros [_ ?].
  - case_match; [|done]. simpl. rewrite elem_of_app, list_elem_of_singleton.
    intros [?| ->]; [done|]. by apply Hx.
Qed.

Lemma step_keeps_out sid q s :
  ¬ reintroduces sid q → sid ∉ streamOrder s → sid ∉ streamOrder (step q s).1.
Proof.
  intros Hq Hs. destruct q; simpl in *.
  - unfold post_streams. destruct answer as [data|]; [|done].
    assert (Ho : streamOrder (startPolling (HlsProxy.v_id data) s).1 = streamOrder s)
      by apply startPolling_frame.
    destruct (startPolling (HlsProxy.v_id data) s) as [s1 t1]. cbn [fst snd] in *.
    unfold truthy. case_decide; [by rewrite Ho|].
    apply updateStreamOrder_keeps_out; [done|]. simpl. by rewrite Ho.
  - unfold get_streams. destruct answer as [ps|]; [|done].
    by destruct (decorate_all allChannels ps (activeStreamsInfo s)).
  - unfold post_reorder. destruct streamIds as [ids|]; [|done].
    by destruct (forallb _ ids).
  - unfold post_stop. destruct ok; [|done].
    assert (Ho : streamOrder (stopPolling sid0 s).1 = streamOrder s)
      by apply stopPolling_frame.
    destruct (stopPolling sid0 s) as [s1 t1]. cbn [fst snd] in *.
    apply updateStreamOrder_keeps_out; [done|]. simpl. by rewrite Ho.
  - unfold delete_streams. destruct stop_ok, delete_ok; try done.
    match goal with |- context [stopPolling sid0 ?s0] =>
      assert (Ho : streamOrder (stopPolling sid0 s0).1 = streamOrder s0)
        by apply stopPolling_frame;
      destruct (stopPolling sid0 s0) as [s3 t3] end.
    cbn [fst snd] in *. rewrite Ho. by apply updateStreamOrder_keeps_out.
  - unfold post_restart. by destruct answer.
  - destruct (intervals s !! timer) as [x|]; [|done].
    unfold pollStreamStatus, updateStreamStats. by repeat case_match; simplify_eq.
  - destruct (take_timeout streamId (timeouts s)) as [rest|]; [|done].
    unfold pollStreamStatus, updateStreamStats. by repeat case_match; simplify_eq.
  - done.
  - done.
  - done.
Qed.

Lemma run_keeps_out sid qs : ∀ s,
  Forall (λ q, ¬ reintroduces sid q) qs →
  sid ∉ streamOrder s → sid ∉ streamOrder (run qs s).1.
Proof.
  induction qs as [|q qs IH]; intros s Hqs Hs; simpl; [done|].
  inversion Hqs as [|? ? Hq Hqs']; subst.
  pose proof (step_keeps_out sid q s Hq Hs) as H1.
  destruct (step q s) as [s1 t1]. specialize (IH s1 Hqs' H1).
  by destruct (run qs s1).
Qed.

(** C10.  A stop request that the proxy accepts makes the backend forget
    the session: its id is filtered out of the stored order and its entry
    of [activeStreamsInfo] (channel name, logo, original URL, start time)
    is deleted, while the stop handler of the proxy, to which the request
    is forwarded, keeps the record, marked [stopped].  From then on,
    until a reorder or a creation brings the id back, the id is not in
    the stored order and every listing puts a
    session of that id after all sessions of the stored order. *)
Theorem backend_stop_forgets_session sid s :
  let s' := (post_stop sid true s).1.2 in
  (post_stop sid true s).1.1 = mkResponse 200 BSuccess
  ∧ streamOrder s' = filter (λ i, i ≠ sid) (streamOrder s)
  ∧ activeStreamsInfo s' = delete sid (activeStreamsInfo s)
  ∧ activeStreamsInfo s' !! sid = None
  ∧ (∀ proxy x, HlsProxy.activeStreams proxy !! sid = Some x →
       HlsProxy.activeStreams (HlsProxy.post_stop sid proxy).2 !! sid
       = Some (HlsProxy.set_status "stopped" x))
  ∧ (∀ qs, Forall (λ q, ¬ reintroduces sid q) qs →
       let s'' := (run qs s').1 in
       (sid ∉ streamOrder s'')
       ∧ (∀ chs ps i j a b,
            let listing := array_sort (compareStreams (streamOrder s''))
                             (decorate_all chs ps (activeStreamsInfo s'')).1 in
            (get_streams chs (Some ps) s'').1.1 = mkResponse 200 (BItems listing)
            ∧ (listing !! i = Some a → listing !! j = Some b →
               it_id a ∈ streamOrder s'' → it_id b = sid → i < j))).
Proof.
  assert (Hp : ∃ s0, (post_stop sid true s).1 = (mkResponse 200 BSuccess, s0)
                     ∧ streamOrder s0 = filter (λ i, i ≠ sid) (streamOrder s)
                     ∧ activeStreamsInfo s0 = delete sid (activeStreamsInfo s)).
  { unfold post_stop, stopPolling, updateStreamOrder.
    destruct (activePolling s !! sid); simpl; by eexists. }
  destruct Hp as (s0 & -> & Ho & Hi). cbn [fst snd].
  split; [done|]. split; [done|]. split; [done|].
  split; [rewrite Hi; apply lookup_delete_eq|].
  split.
  { intros proxy x Hx. unfold HlsProxy.post_stop. rewrite Hx. simpl.
    apply lookup_insert_eq. }
  intros qs Hqs.
  assert (Hout : sid ∉ streamOrder (run qs s0).1).
  { apply run_keeps_out; [done|]. rewrite Ho, list_elem_of_filter. by intros [? _]. }
  split; [done|]. intros chs ps i j a b. split.
  - apply (listing_follows_order_response chs ps).
  - intros Hi' Hj' Ha Hb. eapply sorted_listing_split; eauto. by rewrite Hb.
Qed.

Lemma backend_stop_forgets_session_witness :
  streamOrder (post_stop "A" true state_ABC).1.2 = ["B"; "C"]
  ∧ listing_ids proxy_ABC (post_stop "A" true state_ABC).1.2 = ["B"; "C"; "A"]
  ∧ "A" ∉ streamOrder
            (run [GetStreams [] (Some proxy_ABC); RestartStream "A" None]
               (post_stop "A" true state_ABC).1.2).1.
Proof.
  destruct (backend_stop_forgets_session "A" state_ABC) as (_ & Ho & _ & _ & _ & Hrun).
  split; [rewrite Ho; reflexivity|]. split; [reflexivity|].
  apply (Hrun [GetStreams [] (Some proxy_ABC); RestartStream "A" None]).
  repeat constructor; simpl; tauto.
Defined.

(** The restart handler of the backend only forwards the request. *)
Lemma backend_restart_changes_nothing sid answer s :
  (post_restart sid answer s).1.2 = s.
Proof. unfold post_restart. by destruct answer. Qed.

(** ** One poll *)

(** A 404 from the proxy: nothing is logged, nothing is sent to an
    observer, the state is as before except that the next poll of a known
    stream is scheduled, and the interval timers are untouched. *)
Lemma poll_not_found_is_absorbed sid s statusText msg :
  let s' := (pollStreamStatus (Rejected (Some (404, statusText)) msg) sid s).1 in
  let t := (pollStreamStatus (Rejected (Some (404, statusText)) msg) sid s).2 in
  streams s' = streams s
  ∧ activePolling s' = activePolling s ∧ intervals s' = intervals s
  ∧ activeStreamsInfo s' = activeStreamsInfo s ∧ streamOrder s' = streamOrder s
  ∧ Forall (λ ev, is_ws_event ev = false ∧ is_error_log ev = false) t
  ∧ (is_Some (find (is_stream sid) (streams s)) →
       timeouts s' = timeouts s ++ [sid]).
Proof.
  unfold pollStreamStatus.
  destruct (find (is_stream sid) (streams s)) as [x|] eqn:Hx; simpl.
  - rewrite Hx. simpl. do 5 (split; [done|]). split; [by repeat constructor|done].
  - do 5 (split; [done|]). split; [by repeat constructor|]. by intros [? ?].
Qed.

(** Any other answer that carries an HTTP status is logged, and the next
    poll is scheduled all the same. *)
Lemma poll_http_error_is_logged sid s status statusText msg x :
  find (is_stream sid) (streams s) = Some x →
  status ≠ 404 →
  pollStreamStatus (Rejected (Some (status, statusText)) msg) sid s
  = (set_timeouts (timeouts s ++ [sid]) s,
     [HttpGet (status_url sid); LogPollError sid msg;
      LogPollResponse status statusText]).
Proof.
  intros Hx Hs. unfold pollStreamStatus. rewrite Hx.
  destruct (decide (status ≠ 404)); [|done]. by rewrite Hx.
Qed.



End BackendFacts.

(** * More on the HLS proxy: invariants, worker exits, footprints *)

Module HlsProxyMore.
Import HlsProxy HlsProxyInv.

(** ** What each handler does to registry, workers and handles *)

Lemma startStream_cases e sid src ign s :
  let r := startStream e sid src ign s in
  activeStreams r.2 = activeStreams s ∧ signals r.2 = signals s
  ∧ ((∃ msg, r.1 = Throw msg) ∧ workers r.2 = workers s
       ∧ nextHandle r.2 = nextHandle s
       ∧ (mkdir_ok e = false ∨ spawn_ok e = false)
     ∨ r.1 = Ok (nextHandle s)
       ∧ workers r.2
         = <[nextHandle s := mkWorker sid (streamDir sid) (ffmpegArgs sid src ign)]>
             (workers s)
       ∧ nextHandle r.2 = S (nextHandle s)
       ∧ dirs r.2 = {[streamDir sid]} ∪ dirs s
       ∧ mkdir_ok e = true ∧ spawn_ok e = true).
Proof.
  unfold startStream. destruct (mkdir_ok e), (spawn_ok e); simpl;
    (split; [done|split; [done|]]);
    first [ right; done | left; repeat split; eauto ].
Qed.

Lemma post_start_cases e r s :
  let s' := (post_start e r s).2 in
  code (post_start e r s).1 ≠ 200
    ∧ activeStreams s' = activeStreams s ∧ workers s' = workers s
    ∧ nextHandle s' = nextHandle s
  ∨ ∃ src, truthy (req_url r) = Some src
      ∧ mkdir_ok e = true ∧ spawn_ok e = true
      ∧ (post_start e r s).1 = mkResponse 200 (JStream (view_of (started e r src s)))
      ∧ activeStreams s' = <[start_id e r := started e r src s]> (activeStreams s)
      ∧ workers s'
        = <[nextHandle s := mkWorker (start_id e r) (streamDir (start_id e r))
                              (ffmpegArgs (start_id e r) src (req_ignoreErrors r))]>
            (workers s)
      ∧ nextHandle s' = S (nextHandle s)
      ∧ dirs s' = {[streamDir (start_id e r)]} ∪ dirs s.
Proof.
  unfold post_start. destruct (truthy (req_url r)) as [src|] eqn:Hsrc; [|by left].
  set (s1 := match activeStreams s !! start_id e r with
             | Some existing => _ | None => s end).
  assert (Hs1 : activeStreams s1 = activeStreams s ∧ workers s1 = workers s
                ∧ nextHandle s1 = nextHandle s ∧ dirs s1 = dirs s).
  { subst s1. by repeat case_match. }
  destruct Hs1 as (H1 & H2 & H3 & H4).
  pose proof (startStream_cases e (start_id e r) src (req_ignoreErrors r) s1)
    as (Ha & _ & Hc).
  destruct (startStream e (start_id e r) src (req_ignoreErrors r) s1) as [o s2].
  simpl in *. destruct Hc as [([msg ->] & Hw & Hn & _)|(-> & Hw & Hn & Hd & Hm & Hs)].
  - left. simpl. by rewrite Ha, Hw, Hn, H1, H2, H3.
  - right. exists src. simpl. unfold started.
    rewrite Ha, Hw, Hn, Hd, H1, H2, H3, H4. done.
Qed.

Lemma post_restart_effect e rid ign s x :
  activeStreams s !! rid = Some x →
  let s' := (post_restart e rid ign s).2 in
  code (post_restart e rid ign s).1 ≠ 200
    ∧ activeStreams s' = activeStreams s ∧ workers s' = workers s
    ∧ nextHandle s' = nextHandle s
  ∨ code (post_restart e rid ign s).1 = 200
    ∧ activeStreams s' = <[rid := restarted e x ign s]> (activeStreams s)
    ∧ workers s'
      = <[nextHandle s := mkWorker rid (streamDir rid) (ffmpegArgs rid (url x) ign)]>
          (workers s)
    ∧ nextHandle s' = S (nextHandle s)
    ∧ streamDir rid ∈ dirs s'.
Proof.
  intros Hx. unfold post_restart. rewrite Hx. cbv zeta.
  set (prepared := if decide (status x = "running") then _ else _).
  assert (Hprep : activeStreams prepared.2 = activeStreams s
                  ∧ workers prepared.2 = workers s
                  ∧ nextHandle prepared.2 = nextHandle s).
  { subst prepared. unfold rm. by repeat case_match. }
  destruct prepared as [[[]|msg] s1]; simpl in Hprep;
    destruct Hprep as (H1 & H2 & H3); [|left; simpl; by rewrite H1, H2, H3].
  pose proof (startStream_cases e rid (url x) ign s1) as (Ha & _ & Hc).
  destruct (startStream e rid (url x) ign s1) as [o s2].
  simpl in *. destruct Hc as [([msg ->] & Hw & Hn & _)|(-> & Hw & Hn & Hd & _)].
  - left. simpl. by rewrite Ha, Hw, Hn, H1, H2, H3.
  - right. simpl. unfold restarted. rewrite Ha, Hw, Hn, Hd, H1, H2, H3.
    repeat split; try done. apply elem_of_union_l. by apply elem_of_singleton.
Qed.

Lemma on_close_cases e h s :
  let s' := on_close e h s in
  match workers s !! h with
  | None => s' = s
  | Some w =>
      workers s' = delete h (workers s) ∧ nextHandle s' = nextHandle s
      ∧ signals s' = signals s
      ∧ match activeStreams s !! w_id w with
        | Some x =>
            activeStreams s' = <[w_id w := set_status "stopped" x]> (activeStreams s)
            ∧ dirs s' = (if rm_ok e then dirs s ∖ {[w_dir w]} else dirs s)
        | None => activeStreams s' = activeStreams s ∧ dirs s' = dirs s
        end
  end.
Proof.
  unfold on_close. destruct (workers s !! h) as [w|]; [|done]. simpl.
  destruct (activeStreams s !! w_id w) as [x|]; [|done].
  unfold rm. by destruct (rm_ok e).
Qed.

(** ** Invariants *)

Lemma rm_activeStreams_more e dir s : activeStreams (rm e dir s) = activeStreams s.
Proof. unfold rm. by case_match. Qed.

Lemma registry_ok_insert s s' k x :
  registry_ok s → record_ok k x →
  activeStreams s' = <[k := x]> (activeStreams s) → registry_ok s'.
Proof.
  intros Hs Hx Hreg k' y. rewrite Hreg.
  destruct (decide (k = k')) as [->|Hne].
  - rewrite lookup_insert_eq. by intros [= <-].
  - rewrite lookup_insert_ne by done. apply Hs.
Qed.

Lemma record_ok_stopped k x : record_ok k x → record_ok k (set_status "stopped" x).
Proof. intros (? & ? & _). repeat split; auto. Qed.

Lemma step_registry_ok e q s : registry_ok s → registry_ok (step e q s).
Proof.
  intros Hs. destruct q as [r|rid ign|sid|sid| |h]; simpl.
  - destruct (post_start_cases e r s) as [(_ & Hreg & _)|(src & _ & _ & _ & _ & Hreg & _)].
    + intros k x. rewrite Hreg. apply Hs.
    + eapply registry_ok_insert; [done| |done]. repeat split; auto.
  - destruct (activeStreams s !! rid) as [x|] eqn:Hx.
    + destruct (post_restart_effect e rid ign s x Hx) as [(_ & Hreg & _)|(_ & Hreg & _)].
      * intros k y. rewrite Hreg. apply Hs.
      * eapply registry_ok_insert; [done| |done].
        destruct (Hs _ _ Hx) as (? & ? & _). repeat split; auto.
    + unfold post_restart. by rewrite Hx.
  - unfold post_stop. destruct (activeStreams s !! sid) as [x|] eqn:Hx; [|done].
    eapply registry_ok_insert; [done| |done]. apply record_ok_stopped. by apply Hs.
  - unfold delete_stream. destruct (activeStreams s !! sid) as [x|] eqn:Hx; [|done].
    simpl. intros k y. rewrite rm_activeStreams_more. simpl.
    intros [_ Hy]%lookup_delete_Some. apply Hs.
    by destruct (decide (status x = "running")).
  - done.
  - pose proof (on_close_cases e h s) as H. destruct (workers s !! h) as [w|].
    + destruct H as (_ & _ & _ & H).
      destruct (activeStreams s !! w_id w) as [x|] eqn:Hx.
      * destruct H as [Hreg _]. eapply registry_ok_insert; [done| |done].
        apply record_ok_stopped. by apply Hs.
      * destruct H as [Hreg _]. intros k y. rewrite Hreg. apply Hs.
    + by rewrite H.
Qed.

Lemma workers_ok_spawn s s' k x args :
  workers_ok s → process x = nextHandle s →
  activeStreams s' = <[k := x]> (activeStreams s) →
  workers s' = <[nextHandle s := mkWorker k (streamDir k) args]> (workers s) →
  nextHandle s' = S (nextHandle s) → workers_ok s'.
Proof.
  intros [Hw Hr] Hp Hreg Hws Hn. split.
  - intros h w. rewrite Hws, Hn. destruct (decide (nextHandle s = h)) as [<-|Hne].
    + rewrite lookup_insert_eq. intros [= <-]. split; [lia|done].
    + rewrite lookup_insert_ne by done. intros H%Hw. split; [lia|tauto].
  - intros k' y. rewrite Hreg, Hws, Hn. destruct (decide (k = k')) as [<-|Hne].
    + rewrite lookup_insert_eq. intros [= <-]. rewrite Hp. split; [lia|].
      intros _. eexists. by rewrite lookup_insert_eq.
    + rewrite lookup_insert_ne by done. intros Hy.
      destruct (Hr _ _ Hy) as [Hlt Hrun]. split; [lia|].
      intros (w & Hw' & Hid)%Hrun. exists w. split; [|done].
      rewrite lookup_insert_ne by lia. done.
Qed.

Lemma workers_ok_same s s' :
  workers_ok s → activeStreams s' = activeStreams s → workers s' = workers s →
  nextHandle s' = nextHandle s → workers_ok s'.
Proof. unfold workers_ok. by intros H -> -> ->. Qed.

Lemma workers_ok_stopped s s' k x :
  workers_ok s → activeStreams s !! k = Some x →
  activeStreams s' = <[k := set_status "stopped" x]> (activeStreams s) →
  workers s' = workers s → nextHandle s' = nextHandle s → workers_ok s'.
Proof.
  intros [Hw Hr] Hx Hreg Hws Hn. split.
  - intros h w. rewrite Hws, Hn. apply Hw.
  - intros k' y. rewrite Hreg, Hws, Hn. destruct (decide (k = k')) as [<-|Hne].
    + rewrite lookup_insert_eq. intros [= <-]. simpl. split; [by apply (Hr k x)|done].
    + rewrite lookup_insert_ne by done. apply Hr.
Qed.

Lemma step_workers_ok e q s : workers_ok s → workers_ok (step e q s).
Proof.
  intros Hs. destruct q as [r|rid ign|sid|sid| |h]; simpl.
  - destruct (post_start_cases e r s)
      as [(_ & Hreg & Hw & Hn)|(src & _ & _ & _ & _ & Hreg & Hw & Hn & _)].
    + by eapply workers_ok_same.
    + eapply workers_ok_spawn; [exact Hs| |exact Hreg|exact Hw|exact Hn]; reflexivity.
  - destruct (activeStreams s !! rid) as [x|] eqn:Hx.
    + destruct (post_restart_effect e rid ign s x Hx)
        as [(_ & Hreg & Hw & Hn)|(_ & Hreg & Hw & Hn & _)].
      * by eapply workers_ok_same.
      * eapply workers_ok_spawn; [exact Hs| |exact Hreg|exact Hw|exact Hn]; reflexivity.
    + unfold post_restart. by rewrite Hx.
  - unfold post_stop. destruct (activeStreams s !! sid) as [x|] eqn:Hx; [|done].
    by eapply workers_ok_stopped.
  - unfold delete_stream. destruct (activeStreams s !! sid) as [x|] eqn:Hx; [|done].
    simpl. destruct Hs as [Hw Hr]. split.
    + intros h w. unfold rm. by destruct (rm_ok e), (decide (status x = "running")); apply Hw.
    + intros k y. rewrite rm_activeStreams_more. simpl.
      intros [_ Hy]%lookup_delete_Some.
      assert (Hy' : activeStreams s !! k = Some y)
        by (by destruct (decide (status x = "running"))).
      unfold rm. by destruct (rm_ok e), (decide (status x = "running")); apply Hr.
  - done.
  - pose proof (on_close_cases e h s) as H.
    destruct (workers s !! h) as [w|] eqn:Hh; [|by rewrite H].
    destruct H as (Hws & Hn & _ & H). destruct Hs as [Hw Hr]. split.
    + intros h' w'. rewrite Hws, Hn. intros [_ H']%lookup_delete_Some. by apply Hw.
    + intros k y. rewrite Hws, Hn.
      destruct (activeStreams s !! w_id w) as [x|] eqn:Hx; destruct H as [-> _].
      * destruct (decide (w_id w = k)) as [<-|Hne].
        -- rewrite lookup_insert_eq. intros [= <-]. simpl.
           split; [by apply (Hr _ _ Hx)|done].
        -- rewrite lookup_insert_ne by done. intros Hy.
           destruct (Hr _ _ Hy) as [Hlt Hrun]. split; [done|].
           intros (w' & Hw' & Hid)%Hrun. exists w'. split; [|done].
           apply lookup_delete_Some. split; [|done]. intros Heq. subst h. congruence.
      * intros Hy. destruct (Hr _ _ Hy) as [Hlt Hrun]. split; [done|].
        intros (w' & Hw' & Hid)%Hrun. exists w'. split; [|done].
        apply lookup_delete_Some. split; [|done]. intros Heq. subst h. congruence.
Qed.

Lemma run_inv qs : ∀ s,
  registry_ok s → workers_ok s →
  registry_ok (run qs s) ∧ workers_ok (run qs s).
Proof.
  induction qs as [|[e q] qs IH]; intros s H1 H2; [done|].
  simpl. apply IH; [by apply step_registry_ok|by apply step_workers_ok].
Qed.

Lemma init_inv : registry_ok init ∧ workers_ok init.
Proof.
  split; [|split]; intros ? ?; unfold init; simpl; by rewrite lookup_empty.
Qed.

(** X1.  In every state the proxy can reach, each record of the registry
    is filed under its own [id], its [proxyUrl] is
    [/stream/<id>/playlist.m3u8], and its status is ["running"] or
    ["stopped"]: no other status is ever written. *)
Theorem registry_records_well_formed qs k x :
  activeStreams (run qs init) !! k = Some x →
  id x = k
  ∧ proxyUrl x = "/stream/" +:+ k +:+ "/playlist.m3u8"
  ∧ (status x = "running" ∨ status x = "stopped").
Proof.
  intros Hx. destruct init_inv as [Hi1 Hi2].
  destruct (run_inv qs init Hi1 Hi2) as [H _].
  by apply H.
Qed.

Lemma registry_records_well_formed_witness :
  proxyUrl <$> activeStreams state_AB !! "1700000000000"
  = Some "/stream/1700000000000/playlist.m3u8".
Proof.
  assert (Hx : ∃ x, activeStreams state_AB !! "1700000000000" = Some x)
    by (vm_compute; eauto).
  destruct Hx as [x Hx]. rewrite Hx. simpl. f_equal.
  exact (proj1 (proj2 (registry_records_well_formed
    [(env_ok, Start req_A); (env_ok, Start req_B)] _ x Hx))).
Defined.



(** ** Worker exits *)

Lemma on_close_twice e e' h s : on_close e' h (on_close e h s) = on_close e h s.
Proof.
  pose proof (on_close_cases e h s) as H.
  destruct (workers s !! h) as [w|] eqn:Hh.
  - destruct H as (Hw & _). unfold on_close at 1. by rewrite Hw, lookup_delete_eq.
  - rewrite H. unfold on_close. by rewrite Hh.
Qed.

(** X3.  When the worker of a [running] session exits without a stop
    request (a crash, or the input ending), the [close] listener marks
    the session [stopped], leaves the rest of its record and every other
    record alone, removes the session's directory (when [fs.rm] goes
    through), signals nobody, and forgets the worker; a second [close]
    event for the same process changes nothing. *)
Theorem worker_exit_marks_session_stopped qs e k x :
  let s := run qs init in
  activeStreams s !! k = Some x → status x = "running" →
  let s' := on_close e (process x) s in
  activeStreams s' = <[k := set_status "stopped" x]> (activeStreams s)
  ∧ (rm_ok e = true → streamDir k ∉ dirs s')
  ∧ signals s' = signals s
  ∧ workers s' = delete (process x) (workers s)
  ∧ (∀ e', on_close e' (process x) s' = s').
Proof.
  intros s Hx Hrun s'. destruct init_inv as [Hi1 Hi2].
  destruct (run_inv qs init Hi1 Hi2) as [_ [Hw Hr]]. fold s in Hw, Hr.
  destruct (Hr _ _ Hx) as [_ H]. destruct (H Hrun) as (w & Hw' & Hid).
  destruct (Hw _ _ Hw') as [_ Hdir].
  pose proof (on_close_cases e (process x) s) as Hc. fold s' in Hc.
  rewrite Hw', Hid, Hx in Hc. destruct Hc as (Hws & _ & Hsig & Hreg & Hd).
  split; [done|]. split.
  - intros Hrm. rewrite Hd, Hrm, Hdir, Hid.
    apply not_elem_of_difference. right. by apply elem_of_singleton.
  - split; [done|]. split; [done|]. intros e'. apply on_close_twice.
Qed.

Lemma worker_exit_marks_session_stopped_witness :
  status <$> activeStreams (on_close env_ok 1 state_AB) !! "1700000000000"
  = Some "stopped".
Proof.
  assert (Hx : activeStreams state_AB !! "1700000000000"
               = Some (mkStream "1700000000000" "http://src/2"
                         "/stream/1700000000000/playlist.m3u8" 1 "running"
                         "2023-11-14T22:13:20.000Z" true))
    by reflexivity.
  destruct (worker_exit_marks_session_stopped
              [(env_ok, Start req_A); (env_ok, Start req_B)] env_ok _ _ Hx eq_refl)
    as (Hreg & _).
  unfold state_AB. cbn [process] in Hreg. rewrite Hreg. by rewrite lookup_insert_eq.
Defined.

(** X4.  The [close] listener finds the session by id, not by process.
    When a worker exits that is no longer the process of its session
    (the session was started again under the same id in the meantime),
    the listener marks the session [stopped] and removes its directory
    although the session's current worker is still alive and was never
    signalled; a delete request that follows then removes the record
    without signalling that worker either. *)
Theorem stale_worker_exit_stops_new_session e e' h s w x :
  workers s !! h = Some w →
  activeStreams s !! w_id w = Some x →
  process x ≠ h → status x = "running" →
  let s1 := on_close e h s in
  let s2 := (delete_stream e' (w_id w) s1).2 in
  status <$> activeStreams s1 !! w_id w = Some "stopped"
  ∧ process <$> activeStreams s1 !! w_id w = Some (process x)
  ∧ (rm_ok e = true → w_dir w ∉ dirs s1)
  ∧ workers s1 !! process x = workers s !! process x
  ∧ signals s1 = signals s
  ∧ activeStreams s2 !! w_id w = None
  ∧ workers s2 !! process x = workers s !! process x
  ∧ signals s2 = signals s.
Proof.
  intros Hw Hx Hne Hrun s1 s2.
  pose proof (on_close_cases e h s) as Hc. fold s1 in Hc.
  rewrite Hw, Hx in Hc. destruct Hc as (Hws & _ & Hsig & Hreg & Hd).
  assert (H1 : activeStreams s1 !! w_id w = Some (set_status "stopped" x))
    by (by rewrite Hreg, lookup_insert_eq).
  rewrite H1. split; [done|]. split; [done|]. split.
  { intros Hrm. rewrite Hd, Hrm.
    apply not_elem_of_difference. right. by apply elem_of_singleton. }
  split; [by rewrite Hws, lookup_delete_ne|]. split; [done|].
  subst s2. unfold delete_stream. rewrite H1. simpl.
  rewrite rm_activeStreams_more. simpl. rewrite lookup_delete_eq.
  split; [done|]. unfold rm. destruct (rm_ok e'); simpl;
    by rewrite Hws, lookup_delete_ne.
Qed.

Lemma stale_worker_exit_stops_new_session_witness :
  status <$> activeStreams (on_close env_ok 0 state_AA) !! "A" = Some "stopped"
  ∧ is_Some (workers (on_close env_ok 0 state_AA) !! 1)
  ∧ signals (delete_stream env_ok "A" (on_close env_ok 0 state_AA)).2 = [0].
Proof.
  assert (Hw : workers state_AA !! 0
               = Some (mkWorker "A" (streamDir "A") (ffmpegArgs "A" "http://src/1" false)))
    by reflexivity.
  assert (Hx : activeStreams state_AA !! "A"
               = Some (mkStream "A" "http://src/1" "/stream/A/playlist.m3u8" 1
                         "running" "2023-11-14T22:13:20.000Z" false))
    by reflexivity.
  destruct (stale_worker_exit_stops_new_session env_ok env_ok 0 state_AA _ _ Hw Hx)
    as (H1 & _ & _ & H4 & _ & _ & _ & H8); [simpl; lia|done|].
  split; [exact H1|]. split; [|exact H8].
  cbn [process] in H4. rewrite H4. vm_compute. eauto.
Defined.

(** ** The ffmpeg command line *)

Lemma ffmpegArgs_shape sid src ign :
  let args := ffmpegArgs sid src ign in
  args !! 0 = Some "-i" ∧ args !! 1 = Some src
  ∧ last args = Some (path_join (streamDir sid) "playlist.m3u8")
  ∧ ("-xerror" ∈ drop 2 args ↔ ign = true).
Proof.
  destruct ign; simpl; (split; [done|split; [done|split; [done|]]]).
  - split; [done|]. intros _. apply list_elem_of_In. simpl. tauto.
  - split; [|done]. intros H. exfalso.
    repeat (apply elem_of_cons in H as [H|H]; [discriminate H|]).
    by apply elem_of_nil in H.
Qed.

(** X5.  The worker spawned by a successful restart reads the url stored
    in the session's record (the request carries none), writes the
    playlist of that id, and is given ffmpeg's [-xerror] flag exactly
    when the request sets [ignoreErrors]. *)
Theorem restart_worker_command_line e rid ign s x :
  activeStreams s !! rid = Some x →
  code (post_restart e rid ign s).1 = 200 →
  ∃ w, workers (post_restart e rid ign s).2 !! nextHandle s = Some w
       ∧ w_id w = rid
       ∧ w_args w !! 0 = Some "-i" ∧ w_args w !! 1 = Some (url x)
       ∧ last (w_args w) = Some (path_join (streamDir rid) "playlist.m3u8")
       ∧ ("-xerror" ∈ drop 2 (w_args w) ↔ ign = true).
Proof.
  intros Hx Hc.
  destruct (post_restart_effect e rid ign s x Hx) as [(Hne & _)|(_ & _ & Hw & _)];
    [done|].
  eexists. rewrite Hw, lookup_insert_eq. split; [done|]. split; [done|].
  apply ffmpegArgs_shape.
Qed.

Lemma restart_worker_command_line_witness :
  ∃ w, workers (post_restart env_ok "A" true state_A).2 !! 1 = Some w
       ∧ "-xerror" ∈ drop 2 (w_args w).
Proof.
  assert (Hx : activeStreams state_A !! "A"
               = Some (mkStream "A" "http://src/1" "/stream/A/playlist.m3u8" 0
                         "running" "2023-11-14T22:13:20.000Z" false))
    by reflexivity.
  destruct (restart_worker_command_line env_ok "A" true state_A _ Hx eq_refl)
    as (w & Hw & _ & _ & _ & _ & Hflag).
  exists w. split; [exact Hw|]. by apply Hflag.
Defined.

(** ** The listing *)

Lemma listing_spec s :
  registry_ok s →
  v_id <$> streams_listing s = (map_to_list (activeStreams s)).*1
  ∧ (∀ v, v ∈ streams_listing s
          ↔ ∃ x, activeStreams s !! v_id v = Some x ∧ v = view_of x).
Proof.
  intros Hs. unfold streams_listing. split.
  - rewrite <- !list_fmap_compose. apply list_fmap_ext.
    intros i [k x] Hi. simpl.
    apply list_elem_of_lookup_2, elem_of_map_to_list in Hi. by apply Hs.
  - intros v. rewrite list_elem_of_fmap. split.
    + intros (x & -> & Hx). apply list_elem_of_fmap in Hx as ([k x'] & -> & Hkx).
      apply elem_of_map_to_list in Hkx. exists x'. split; [|done].
      simpl. destruct (Hs _ _ Hkx) as [-> _]. done.
    + intros (x & Hx & ->). exists x. split; [done|].
      apply list_elem_of_fmap. exists (v_id (view_of x), x). split; [done|].
      by apply elem_of_map_to_list.
Qed.

(** X6.  In every state the proxy can reach, [GET /streams] lists each
    session of the registry exactly once: the ids of the listing are
    pairwise distinct, the listing is as long as the registry is large,
    and an entry is listed exactly when it is the projection of the
    record stored under its id. *)
Theorem listing_matches_registry qs :
  let s := run qs init in
  (get_streams s).1 = mkResponse 200 (JStreams (streams_listing s))
  ∧ (get_streams s).2 = s
  ∧ NoDup (v_id <$> streams_listing s)
  ∧ length (streams_listing s) = size (activeStreams s)
  ∧ (∀ v, v ∈ streams_listing s
          ↔ ∃ x, activeStreams s !! v_id v = Some x ∧ v = view_of x).
Proof.
  intros s. destruct init_inv as [Hi1 Hi2].
  destruct (run_inv qs init Hi1 Hi2) as [Hr _]. fold s in Hr.
  destruct (listing_spec s Hr) as [Hids Hin].
  split; [done|]. split; [done|]. split; [|split; [|done]].
  - rewrite Hids. apply NoDup_fst_map_to_list.
  - unfold streams_listing. by rewrite !length_fmap, length_map_to_list.
Qed.

(** ** Footprints *)









(** ** Creation and deletion *)

Lemma post_start_signals e r s :
  signals (post_start e r s).2
  = match truthy (req_url r), activeStreams s !! start_id e r with
    | Some _, Some y =>
        if decide (status y = "running") then process y :: signals s else signals s
    | _, _ => signals s
    end.
Proof.
  unfold post_start. destruct (truthy (req_url r)) as [src|]; [|done].
  match goal with |- context [startStream e ?a ?b ?c ?s0] =>
    pose proof (startStream_cases e a b c s0) as (_ & Hsig & _);
    destruct (startStream e a b c s0) as [[?|?] ?] end;
    simpl in *; rewrite Hsig; by repeat case_match.
Qed.

(** X8.  In any state the proxy can reach, a creation request with a URL
    whose launch goes through answers with the new session and makes it
    the one and only listing entry of its id: [running], with the
    requested url, the derived playlist address and the current time.
    The registry grows by one entry when the id is new and keeps its size
    when the id was already there (the old record is replaced, and its
    process is signalled if it was [running]); the session's directory
    exists afterwards. *)
Theorem start_lists_running_session qs e r src :
  let s := run qs init in
  truthy (req_url r) = Some src → mkdir_ok e = true → spawn_ok e = true →
  let s' := (post_start e r s).2 in
  let v := mkView (start_id e r) src
             ("/stream/" +:+ start_id e r +:+ "/playlist.m3u8") "running"
             (date_iso e) (req_ignoreErrors r) in
  (post_start e r s).1 = mkResponse 200 (JStream v)
  ∧ v ∈ streams_listing s'
  ∧ (∀ v', v' ∈ streams_listing s' → v_id v' = start_id e r → v' = v)
  ∧ size (activeStreams s')
    = match activeStreams s !! start_id e r with
      | Some _ => size (activeStreams s)
      | None => S (size (activeStreams s))
      end
  ∧ streamDir (start_id e r) ∈ dirs s'
  ∧ (∀ y, activeStreams s !! start_id e r = Some y → status y = "running" →
       signals s' = process y :: signals s).
Proof.
  intros s Hsrc Hm Hsp s' v.
  destruct init_inv as [Hi1 Hi2].
  destruct (run_inv ((qs ++ [(e, Start r)])) init Hi1 Hi2) as [Hr' _].
  assert (Hrun : run (qs ++ [(e, Start r)]) init = s').
  { clear. subst s' s. generalize init. induction qs as [|[e' q] qs IH]; intros s0; [done|].
    simpl. apply IH. }
  rewrite Hrun in Hr'.
  destruct (post_start_cases e r s)
    as [(Hc & _)|(src' & Hsrc' & _ & _ & Hresp & Hreg & _ & _ & Hd)].
  { exfalso. revert Hc. unfold post_start. rewrite Hsrc.
    match goal with |- context [startStream e ?a ?b ?c ?s0] =>
      pose proof (startStream_cases e a b c s0) as (_ & _ & Hcase);
      destruct (startStream e a b c s0) as [o s2] end.
    simpl in Hcase. destruct Hcase as [(_ & _ & _ & [H|H])|(-> & _)];
      [congruence..|]. simpl. congruence. }
  assert (src' = src) as -> by congruence. fold s' in Hreg, Hd.
  destruct (listing_spec s' Hr') as [_ Hin].
  assert (Hx : activeStreams s' !! start_id e r = Some (started e r src s))
    by (by rewrite Hreg, lookup_insert_eq).
  split; [by rewrite Hresp|]. split; [|split; [|split; [|split]]].
  - apply Hin. exists (started e r src s). by split.
  - intros v' (x & Hx' & ->)%Hin Hid. rewrite Hid, Hx in Hx'. by injection Hx' as <-.
  - rewrite Hreg, map_size_insert. by destruct (activeStreams s !! start_id e r).
  - rewrite Hd. apply elem_of_union_l. by apply elem_of_singleton.
  - intros y Hy Hrunning. subst s'. rewrite post_start_signals, Hsrc, Hy.
    by destruct (decide (status y = "running")).
Qed.

Lemma start_lists_running_session_witness :
  mkView "A" "http://src/1" "/stream/A/playlist.m3u8" "running"
    "2023-11-14T22:13:20.000Z" false ∈ streams_listing state_A.
Proof.
  exact (proj1 (proj2 (start_lists_running_session [] env_ok req_A "http://src/1"
                         eq_refl eq_refl eq_refl))).
Defined.

(** X9.  Deleting a [running] session of a reachable state signals its
    worker once and leaves the set of live workers alone; when that
    worker then exits, the [close] listener finds no session and changes
    neither the registry nor the disk: a deleted session does not come
    back and nothing is cleaned twice.  Deleting a session that is not
    [running] signals nobody. *)
Theorem delete_then_worker_exit qs e e' k x :
  let s := run qs init in
  activeStreams s !! k = Some x →
  let s1 := (delete_stream e k s).2 in
  let s2 := on_close e' (process x) s1 in
  workers s1 = workers s
  ∧ signals s1 = (if decide (status x = "running")
                  then process x :: signals s else signals s)
  ∧ (status x = "running" →
       activeStreams s2 = activeStreams s1 ∧ dirs s2 = dirs s1
       ∧ workers s2 = delete (process x) (workers s)).
Proof.
  intros s Hx s1 s2. destruct init_inv as [Hi1 Hi2].
  destruct (run_inv qs init Hi1 Hi2) as [_ [Hw Hr]]. fold s in Hw, Hr.
  assert (H1 : workers s1 = workers s ∧ activeStreams s1 = delete k (activeStreams s)
               ∧ signals s1 = (if decide (status x = "running")
                               then process x :: signals s else signals s)).
  { subst s1. unfold delete_stream. rewrite Hx. simpl. rewrite rm_activeStreams_more.
    unfold rm. by destruct (rm_ok e), (decide (status x = "running")). }
  destruct H1 as (Hws & Hreg & Hsig). split; [done|]. split; [done|].
  intros Hrun. destruct (Hr _ _ Hx) as [_ H]. destruct (H Hrun) as (w & Hw' & Hid).
  pose proof (on_close_cases e' (process x) s1) as Hc. fold s2 in Hc.
  rewrite Hws, Hw', Hid, Hreg, lookup_delete_eq in Hc.
  by destruct Hc as (-> & _ & _ & -> & ->).
Qed.

Lemma delete_then_worker_exit_witness :
  activeStreams (on_close env_ok 0 (delete_stream env_ok "A" state_AB).2)
  = activeStreams (delete_stream env_ok "A" state_AB).2.
Proof.
  assert (Hx : activeStreams state_AB !! "A"
               = Some (mkStream "A" "http://src/1" "/stream/A/playlist.m3u8" 0
                         "running" "2023-11-14T22:13:20.000Z" false))
    by reflexivity.
  destruct (delete_then_worker_exit
              [(env_ok, Start req_A); (env_ok, Start req_B)] env_ok env_ok "A" _ Hx)
    as (_ & _ & H).
  exact (proj1 (H eq_refl)).
Defined.

End HlsProxyMore.

(** * More on the backend: comparator, order, metadata, polls *)

Module BackendMore.
Import Backend BackendInv.

(** ** The comparator *)

Lemma compareStreams_sign order a b :
  (compareStreams order a b ?= 0)%Z = (rank order a ?= rank order b)%Z.
Proof.
  unfold compareStreams, rank.
  pose proof (BackendFacts.indexOf_range (it_id a) order).
  pose proof (BackendFacts.indexOf_range (it_id b) order).
  destruct (Z.eqb_spec (indexOf (it_id a) order) (-1));
    destruct (Z.eqb_spec (indexOf (it_id b) order) (-1)); simpl;
    symmetry; rewrite ?Z.compare_eq_iff, ?Z.compare_lt_iff, ?Z.compare_gt_iff;
    try lia.
  destruct (Z.compare_spec (indexOf (it_id a) order - indexOf (it_id b) order) 0);
    rewrite ?Z.compare_eq_iff, ?Z.compare_lt_iff, ?Z.compare_gt_iff; lia.
Qed.

(** X10.  The comparator of the listing is a consistent comparator, as
    [Array.prototype.sort] requires: it gives 0 on equal arguments,
    swapping the arguments swaps the sign, and it is transitive.  It gives
    0 exactly when both ids are missing from the stored order or both
    have the same position in it. *)
Theorem compareStreams_consistent order a b c :
  compareStreams order a a = 0%Z
  ∧ ((compareStreams order a b < 0)%Z ↔ (compareStreams order b a > 0)%Z)
  ∧ (compareStreams order a b = 0%Z ↔ compareStreams order b a = 0%Z)
  ∧ ((compareStreams order a b ≤ 0)%Z → (compareStreams order b c ≤ 0)%Z →
     (compareStreams order a c ≤ 0)%Z)
  ∧ (compareStreams order a b = 0%Z
     ↔ indexOf (it_id a) order = indexOf (it_id b) order).
Proof.
  pose proof (compareStreams_sign order a a) as Haa.
  pose proof (compareStreams_sign order a b) as Hab.
  pose proof (compareStreams_sign order b a) as Hba.
  pose proof (compareStreams_sign order b c) as Hbc.
  pose proof (compareStreams_sign order a c) as Hac.
  assert (Hrank : rank order a = rank order b
                  ↔ indexOf (it_id a) order = indexOf (it_id b) order).
  { unfold rank.
    pose proof (BackendFacts.indexOf_range (it_id a) order).
    pose proof (BackendFacts.indexOf_range (it_id b) order).
    destruct (Z.eqb_spec (indexOf (it_id a) order) (-1));
      destruct (Z.eqb_spec (indexOf (it_id b) order) (-1)); lia. }
  rewrite <- Hrank.
  destruct (Z.compare_spec (rank order a) (rank order a));
    destruct (Z.compare_spec (rank order a) (rank order b));
    destruct (Z.compare_spec (rank order b) (rank order a));
    destruct (Z.compare_spec (rank order b) (rank order c));
    destruct (Z.compare_spec (rank order a) (rank order c));
    try lia;
    rewrite ?Z.compare_eq_iff, ?Z.compare_lt_iff, ?Z.compare_gt_iff in *; lia.
Qed.

Lemma compareStreams_consistent_witness :
  compareStreams ["C"; "A"] (mkItem "A" "" None "" "" None "" false)
    (mkItem "B" "" None "" "" None "" false) = (-1)%Z
  ∧ compareStreams ["C"; "A"] (mkItem "A" "" None "" "" None "" false)
      (mkItem "Z" "" None "" "" None "" false) = (-1)%Z.
Proof.
  pose proof (compareStreams_consistent ["C"; "A"]
                (mkItem "A" "" None "" "" None "" false)
                (mkItem "B" "" None "" "" None "" false)
                (mkItem "Z" "" None "" "" None "" false)) as (_ & _ & _ & Htrans & _).
  split; [reflexivity|].
  assert (H : (compareStreams ["C"; "A"] (mkItem "A" "" None "" "" None "" false)
                 (mkItem "Z" "" None "" "" None "" false) ≤ 0)%Z)
    by (apply Htrans; by vm_compute).
  revert H. vm_compute. by intros _.
Defined.

(** ** The stored order and the metadata *)

Lemma decorate_map chs p m :
  (decorate chs p m).2 = m
  ∨ ∃ si, (decorate chs p m).2 = <[HlsProxy.v_id p := si]> m.
Proof.
  unfold decorate.
  destruct (truthy (channelName (default (mkInfo None None None None)
                                   (m !! HlsProxy.v_id p)))); [by left|].
  destruct (find_channel (HlsProxy.v_url p) chs); [right; by eexists|by left].
Qed.

Lemma decorate_keeps_known chs p m k :
  is_Some (m !! k) → is_Some ((decorate chs p m).2 !! k).
Proof.
  intros Hk. destruct (decorate_map chs p m) as [->|[si ->]]; [done|].
  destruct (decide (HlsProxy.v_id p = k)) as [->|Hne].
  - rewrite lookup_insert_eq. eauto.
  - by rewrite lookup_insert_ne.
Qed.

Lemma decorate_all_keeps_known chs ps : ∀ m k,
  is_Some (m !! k) → is_Some ((decorate_all chs ps m).2 !! k).
Proof.
  induction ps as [|p ps IH]; intros m k Hk; simpl; [done|].
  pose proof (decorate_keeps_known chs p m k Hk) as H1.
  destruct (decorate chs p m) as [it m1]. simpl in H1.
  specialize (IH m1 k H1). by destruct (decorate_all chs ps m1).
Qed.

Lemma stopPolling_fields sid s :
  streamOrder (stopPolling sid s).1 = streamOrder s
  ∧ activeStreamsInfo (stopPolling sid s).1 = activeStreamsInfo s.
Proof. unfold stopPolling. by case_match. Qed.

Lemma startPolling_fields sid s :
  streamOrder (startPolling sid s).1 = streamOrder s
  ∧ activeStreamsInfo (startPolling sid s).1 = activeStreamsInfo s.
Proof. unfold startPolling. by case_match. Qed.

Lemma pollStreamStatus_fields r sid s :
  streamOrder (pollStreamStatus r sid s).1 = streamOrder s
  ∧ activeStreamsInfo (pollStreamStatus r sid s).1 = activeStreamsInfo s.
Proof. unfold pollStreamStatus, updateStreamStats. by repeat case_match; simplify_eq. Qed.

(** What a step does to the stored order and to the metadata. *)
Lemma step_order_info q s :
  let s' := (step q s).1 in
  match q with
  | PostStreams now src chs (Some data) =>
      if decide (HlsProxy.v_id data = "") then
        streamOrder s' = streamOrder s ∧ activeStreamsInfo s' = activeStreamsInfo s
      else
        streamOrder s'
        = (if bool_decide (HlsProxy.v_id data ∈ streamOrder s) then streamOrder s
           else streamOrder s ++ [HlsProxy.v_id data])
        ∧ activeStreamsInfo s'
          = <[HlsProxy.v_id data :=
                mkInfo (Some (resolved_name src chs)) (find_channel src chs ≫= ch_logo)
                  (Some src) (Some now)]> (activeStreamsInfo s)
  | GetStreams chs (Some ps) =>
      streamOrder s' = streamOrder s
      ∧ activeStreamsInfo s' = (decorate_all chs ps (activeStreamsInfo s)).2
  | Reorder (Some ids) =>
      activeStreamsInfo s' = activeStreamsInfo s
      ∧ (streamOrder s' = streamOrder s
         ∨ streamOrder s' = ids
           ∧ Forall (λ i, is_Some (activeStreamsInfo s !! i)) ids)
  | StopStream sid true | DeleteStream sid true true =>
      streamOrder s' = filter (λ i, i ≠ sid) (streamOrder s)
      ∧ activeStreamsInfo s' = delete sid (activeStreamsInfo s)
  | _ => streamOrder s' = streamOrder s ∧ activeStreamsInfo s' = activeStreamsInfo s
  end.
Proof.
  destruct q as [now src chs [data|]|chs [ps|]|[ids|]|sid [|]|sid [|] [|]|sid [data|]
                |timer r|sid r|c|c|c]; simpl; try done.
  - unfold post_streams.
    destruct (startPolling_fields (HlsProxy.v_id data) s) as [Ho Hi].
    destruct (startPolling (HlsProxy.v_id data) s) as [s1 t1]. simpl in *.
    unfold truthy. destruct (decide (HlsProxy.v_id data = "")); simpl; [done|].
    unfold updateStreamOrder, includes, resolved_name. simpl. rewrite Ho, Hi.
    by destruct (bool_decide (HlsProxy.v_id data ∈ streamOrder s)).
  - unfold get_streams. by destruct (decorate_all chs ps (activeStreamsInfo s)).
  - unfold post_reorder. destruct (forallb _ ids) eqn:Hf; simpl; [|by split; [|left]].
    split; [done|]. right. split; [done|].
    rewrite forallb_forall in Hf. apply Forall_forall. intros i Hi.
    apply list_elem_of_In, Hf in Hi. by apply bool_decide_eq_true in Hi.
  - unfold post_stop. destruct (stopPolling_fields sid s) as [Ho Hi].
    destruct (stopPolling sid s) as [s1 t1]. simpl in *. by rewrite Ho, Hi.
  - unfold delete_streams.
    match goal with |- context [stopPolling sid ?s0] =>
      destruct (stopPolling_fields sid s0) as [Ho Hi];
      destruct (stopPolling sid s0) as [s3 t3] end.
    simpl in *. by rewrite Ho, Hi.
  - destruct (intervals s !! timer); [apply pollStreamStatus_fields|done].
  - destruct (take_timeout sid (timeouts s)) as [rest|]; [|done].
    apply (pollStreamStatus_fields r sid (set_timeouts rest s)).
Qed.

Lemma step_order_known q s : order_known s → order_known (step q s).1.
Proof.
  intros Hs i. pose proof (step_order_info q s) as H. cbv zeta in H.
  destruct q as [now src chs [data|]|chs [ps|]|[ids|]|sid [|]|sid [|] [|]|sid [data|]
                |timer r|sid r|c|c|c];
    try (destruct H as [-> ->]; by apply Hs).
  - destruct (decide (HlsProxy.v_id data = "")); [destruct H as [-> ->]; by apply Hs|].
    destruct H as [-> ->]. intros Hi.
    destruct (decide (HlsProxy.v_id data = i)) as [->|Hne];
      [rewrite lookup_insert_eq; eauto|].
    rewrite lookup_insert_ne by done. apply Hs.
    destruct (bool_decide (HlsProxy.v_id data ∈ streamOrder s)); [done|].
    apply elem_of_app in Hi as [?|Hi]; [done|].
    apply list_elem_of_singleton in Hi. congruence.
  - destruct H as [-> ->]. intros Hi. by apply decorate_all_keeps_known, Hs.
  - destruct H as [-> [->|[-> Hf]]]; [apply Hs|].
    intros Hi. rewrite Forall_forall in Hf. by apply Hf.
  - destruct H as [-> ->]. intros [Hne Hi]%list_elem_of_filter.
    rewrite lookup_delete_ne by done. by apply Hs.
  - destruct H as [-> ->]. intros [Hne Hi]%list_elem_of_filter.
    rewrite lookup_delete_ne by done. by apply Hs.
Qed.

Lemma step_order_nodup q s :
  reorders_nodup q → NoDup (streamOrder s) → NoDup (streamOrder (step q s).1).
Proof.
  intros Hq Hs. pose proof (step_order_info q s) as H. cbv zeta in H.
  destruct q as [now src chs [data|]|chs [ps|]|[ids|]|sid [|]|sid [|] [|]|sid [data|]
                |timer r|sid r|c|c|c];
    try (destruct H as [-> _]; done).
  - destruct (decide (HlsProxy.v_id data = "")); [by destruct H as [-> _]|].
    destruct H as [-> _].
    destruct (bool_decide (HlsProxy.v_id data ∈ streamOrder s)) eqn:Hin; [done|].
    apply bool_decide_eq_false in Hin. apply NoDup_app. split; [done|].
    split; [|apply NoDup_singleton]. intros x Hx ->%list_elem_of_singleton. done.
  - destruct H as [_ [->|[-> _]]]; done.
  - destruct H as [-> _]. by apply NoDup_filter.
  - destruct H as [-> _]. by apply NoDup_filter.
Qed.

Lemma run_order_known qs : ∀ s, order_known s → order_known (run qs s).1.
Proof.
  induction qs as [|q qs IH]; intros s Hs; simpl; [done|].
  pose proof (step_order_known q s Hs) as H1.
  destruct (step q s) as [s1 t1]. specialize (IH s1 H1).
  by destruct (run qs s1).
Qed.

Lemma run_order_nodup qs : ∀ s,
  Forall reorders_nodup qs → NoDup (streamOrder s) →
  NoDup (streamOrder (run qs s).1).
Proof.
  induction qs as [|q qs IH]; intros s Hqs Hs; simpl; [done|].
  inversion Hqs as [|? ? Hq Hqs']; subst.
  pose proof (step_order_nodup q s Hq Hs) as H1.
  destruct (step q s) as [s1 t1]. specialize (IH s1 Hqs' H1).
  by destruct (run qs s1).
Qed.

(** X11.  In every state the backend can reach, each id of the stored
    order has an entry in [activeStreamsInfo]: creation stores both,
    stop and delete remove both, the listing only adds metadata, and a
    reorder is only accepted when every id it names has an entry. *)
Theorem stored_order_names_known_sessions qs i :
  i ∈ streamOrder (run qs init).1 →
  is_Some (activeStreamsInfo (run qs init).1 !! i).
Proof.
  apply (run_order_known qs init). intros j Hj. by apply elem_of_nil in Hj.
Qed.

Lemma stored_order_names_known_sessions_witness :
  is_Some (activeStreamsInfo state_ABC !! "B").
Proof.
  apply (stored_order_names_known_sessions
    [ PostStreams "t1" "http://src/1" [] (Some (view_of_id "A" "http://src/1"));
      PostStreams "t2" "http://src/2" [] (Some (view_of_id "B" "http://src/2"));
      PostStreams "t3" "http://src/3" [] (Some (view_of_id "C" "http://src/3")) ]).
  vm_compute. apply list_elem_of_In. simpl. tauto.
Defined.

(** X12.  The stored order holds no id twice as long as no reorder
    request brought a repetition in: creation appends an id only when it
    is not there yet, and stop and delete only filter.  (A reorder request
    is accepted with whatever list of known ids it carries, repetitions
    included.) *)
Theorem stored_order_has_no_repetition qs :
  Forall reorders_nodup qs → NoDup (streamOrder (run qs init).1).
Proof. intros Hqs. apply run_order_nodup; [done|apply NoDup_nil_2]. Qed.

Lemma stored_order_has_no_repetition_witness :
  NoDup (streamOrder
           (run [ PostStreams "t1" "http://src/1" [] (Some (view_of_id "A" "http://src/1"));
                  PostStreams "t2" "http://src/1" [] (Some (view_of_id "A" "http://src/1"));
                  Reorder (Some ["A"]) ] init).1)
  ∧ streamOrder (post_reorder (Some ["A"; "A"]) state_ABC).1.2 = ["A"; "A"].
Proof.
  split; [|reflexivity].
  apply stored_order_has_no_repetition.
  repeat constructor; simpl; try done. by intros ?%elem_of_nil.
Defined.

(** X13.  For the backend, a delete that the proxy accepts is the same
    as a stop that the proxy accepts: both forget the session's metadata,
    take its id out of the stored order and clear its polling timer, and
    they end in the same state.  When the proxy refuses the stop, the
    delete request is not even sent; when it refuses either request, the
    backend keeps its state as it was. *)
Theorem backend_delete_mirrors_stop sid s delete_ok target :
  (delete_streams sid true true s).1.2 = (post_stop sid true s).1.2
  ∧ (delete_streams sid true true s).1.1 = mkResponse 200 BSuccess
  ∧ (delete_streams sid true false s).1.2 = s
  ∧ code (delete_streams sid true false s).1.1 = 500
  ∧ (delete_streams sid false delete_ok s).1.2 = s
  ∧ code (delete_streams sid false delete_ok s).1.1 = 500
  ∧ HttpDelete target ∉ (delete_streams sid false delete_ok s).2.
Proof.
  unfold delete_streams, post_stop, stopPolling, updateStreamOrder. simpl.
  destruct (activePolling s !! sid); simpl; repeat split; try done;
    intros H; repeat (apply elem_of_cons in H as [H|H]; [discriminate H|]);
    by apply elem_of_nil in H.
Qed.

Lemma find_channel_spec src chs :
  match find_channel src chs with
  | Some ch => ch ∈ chs ∧ ch_url ch = src
  | None => ∀ ch, ch ∈ chs → ch_url ch ≠ src
  end.
Proof.
  unfold find_channel. destruct (find _ chs) as [ch|] eqn:Hf.
  - apply find_some in Hf as [Hin Hb]. apply bool_decide_eq_true in Hb.
    split; [by apply list_elem_of_In|done].
  - intros ch Hin Heq. apply list_elem_of_In in Hin.
    pose proof (find_none _ _ Hf ch Hin) as Hb. simpl in Hb.
    by apply bool_decide_eq_false in Hb.
Qed.

(** X14.  A creation that the proxy answers with a non-empty id stores the
    session's metadata (the requested url, the time of the request, and
    the name and logo of the first cached channel with exactly that url,
    or the name "Unknown Channel" when no channel has it), appends the id
    to the stored order unless it is already there, in which case it keeps
    its place, and leaves the id with a polling timer.  When the proxy
    cannot be reached or refuses, the backend state is left as it was. *)
Theorem create_registers_session now src chs data s :
  HlsProxy.v_id data ≠ "" →
  let sid := HlsProxy.v_id data in
  let s' := (post_streams now src chs (Some data) s).1.2 in
  (post_streams now src chs (Some data) s).1.1 = mkResponse 200 (BData data)
  ∧ activeStreamsInfo s' !! sid
    = Some (mkInfo (Some (resolved_name src chs)) (find_channel src chs ≫= ch_logo)
              (Some src) (Some now))
  ∧ (sid ∈ streamOrder s → streamOrder s' = streamOrder s)
  ∧ (sid ∉ streamOrder s → streamOrder s' = streamOrder s ++ [sid])
  ∧ is_Some (activePolling s' !! sid)
  ∧ match find_channel src chs with
    | Some ch => ch ∈ chs ∧ ch_url ch = src ∧ resolved_name src chs = ch_name ch
    | None => resolved_name src chs = "Unknown Channel"
              ∧ ∀ ch, ch ∈ chs → ch_url ch ≠ src
    end
  ∧ (post_streams now src chs None s).1.2 = s.
Proof.
  intros Hid sid s'.
  pose proof (step_order_info (PostStreams now src chs (Some data)) s) as H.
  cbv beta iota zeta in H.
  assert (Hstep : (step (PostStreams now src chs (Some data)) s).1 = s').
  { subst s'. unfold step. by destruct (post_streams now src chs (Some data) s) as [[? ?] ?]. }
  rewrite Hstep in H.
  destruct (decide (HlsProxy.v_id data = "")); [done|]. destruct H as [Ho Hi].
  split; [unfold post_streams; by destruct (startPolling _ s)|].
  split; [by rewrite Hi, lookup_insert_eq|].
  split; [intros Hin; by rewrite Ho, bool_decide_eq_true_2|].
  split; [intros Hin; by rewrite Ho, bool_decide_eq_false_2|].
  split.
  { subst s'. unfold post_streams, startPolling, updateStreamOrder, truthy.
    destruct (decide (HlsProxy.v_id data = "")); [done|].
    destruct (activePolling s !! HlsProxy.v_id data) eqn:Hp; simpl;
      destruct (negb (includes (HlsProxy.v_id data) (streamOrder s))); simpl;
      rewrite ?Hp, ?lookup_insert_eq; eauto. }
  split; [|done].
  pose proof (find_channel_spec src chs) as Hf. unfold resolved_name.
  destruct (find_channel src chs); simpl; tauto.
Qed.

Lemma create_registers_session_witness :
  channelName <$> activeStreamsInfo
      (post_streams "t4" "http://src/1" sample_channels
         (Some (view_of_id "D" "http://src/1")) state_ABC).1.2 !! "D"
  = Some (Some "News One")
  ∧ streamOrder
      (post_streams "t4" "http://src/1" sample_channels
         (Some (view_of_id "D" "http://src/1")) state_ABC).1.2
    = ["A"; "B"; "C"; "D"].
Proof.
  destruct (create_registers_session "t4" "http://src/1" sample_channels
              (view_of_id "D" "http://src/1") state_ABC)
    as (_ & Hi & _ & Ho & _); [discriminate|].
  change (HlsProxy.v_id (view_of_id "D" "http://src/1")) with "D" in Hi, Ho.
  split.
  - rewrite Hi. reflexivity.
  - rewrite Ho; [reflexivity|]. vm_compute. intros H.
    repeat (apply elem_of_cons in H as [H|H]; [discriminate H|]).
    by apply elem_of_nil in H.
Defined.

(** ** Decoration *)

(** The decoration of a stream only depends on the entry of its own id,
    and decorating again after the entry was cached changes nothing. *)
Lemma truthy_None : truthy None = None.
Proof. done. Qed.

Local Opaque truthy.

Lemma decorate_again chs p m m' :
  m' !! HlsProxy.v_id p = (decorate chs p m).2 !! HlsProxy.v_id p →
  decorate chs p m' = ((decorate chs p m).1, m').
Proof.
  unfold decorate.
  destruct (m !! HlsProxy.v_id p) as [inf|] eqn:Hm; simpl.
  - destruct (truthy (channelName inf)) eqn:Hn; simpl.
    + intros ->. rewrite Hm. simpl. by rewrite !Hn.
    + destruct (find_channel (HlsProxy.v_url p) chs) as [ch|] eqn:Hf; simpl.
      * rewrite lookup_insert_eq. intros Hm'. rewrite Hm'. simpl.
        destruct (truthy (Some (ch_name ch))) eqn:Hn'; simpl;
          rewrite ?Hn'; simpl; [done|]. by rewrite insert_id.
      * intros ->. rewrite Hm. simpl. by rewrite ?Hn, ?Hf.
  - rewrite truthy_None.
    destruct (find_channel (HlsProxy.v_url p) chs) as [ch|] eqn:Hf; simpl.
    + rewrite lookup_insert_eq. intros Hm'. rewrite Hm'. simpl.
      destruct (truthy (Some (ch_name ch))) eqn:Hn'; simpl;
        rewrite ?Hn'; simpl; [done|]. by rewrite insert_id.
    + intros ->. rewrite Hm. simpl. by rewrite truthy_None, ?Hf.
Qed.

Lemma decorate_other chs p m k :
  k ≠ HlsProxy.v_id p → (decorate chs p m).2 !! k = m !! k.
Proof.
  intros Hk. destruct (decorate_map chs p m) as [->|[si ->]]; [done|].
  by rewrite lookup_insert_ne.
Qed.

Lemma decorate_all_other chs ps : ∀ m k,
  k ∉ HlsProxy.v_id <$> ps → (decorate_all chs ps m).2 !! k = m !! k.
Proof.
  induction ps as [|p ps IH]; intros m k Hk; simpl; [done|].
  rewrite fmap_cons, not_elem_of_cons in Hk. destruct Hk as [Hne Hk].
  pose proof (decorate_other chs p m k Hne) as H1.
  destruct (decorate chs p m) as [it m1]. simpl in H1.
  specialize (IH m1 k Hk). destruct (decorate_all chs ps m1) as [its m2].
  simpl in *. congruence.
Qed.

Lemma decorate_all_again chs ps : ∀ m,
  NoDup (HlsProxy.v_id <$> ps) →
  decorate_all chs ps (decorate_all chs ps m).2 = decorate_all chs ps m.
Proof.
  induction ps as [|p ps IH]; intros m Hnd; simpl; [done|].
  rewrite fmap_cons in Hnd. apply NoDup_cons in Hnd as [Hp Hnd].
  pose proof (decorate_again chs p m) as Hagain.
  destruct (decorate chs p m) as [it m1] eqn:Hd. simpl in Hagain.
  pose proof (decorate_all_other chs ps m1 _ Hp) as Hother.
  specialize (IH m1 Hnd).
  destruct (decorate_all chs ps m1) as [its m2] eqn:Hda. simpl in *.
  rewrite (Hagain m2 Hother), IH. done.
Qed.

(** X15.  The listing handler caches what it looks up: when the proxy
    lists each session once, asking for the listing a second time gives
    the same answer and leaves the backend state exactly as the first
    request left it. *)
Theorem listing_is_repeatable chs ps s :
  NoDup (HlsProxy.v_id <$> ps) →
  let s1 := (get_streams chs (Some ps) s).1.2 in
  (get_streams chs (Some ps) s1).1.1 = (get_streams chs (Some ps) s).1.1
  ∧ (get_streams chs (Some ps) s1).1.2 = s1
  ∧ streamOrder s1 = streamOrder s.
Proof.
  intros Hnd. unfold get_streams.
  pose proof (decorate_all_again chs ps (activeStreamsInfo s) Hnd) as H.
  destruct (decorate_all chs ps (activeStreamsInfo s)) as [its m]. simpl in *.
  rewrite H. done.
Qed.

Lemma listing_is_repeatable_witness :
  (get_streams sample_channels (Some proxy_ABC)
     (get_streams sample_channels (Some proxy_ABC) init).1.2).1.1
  = (get_streams sample_channels (Some proxy_ABC) init).1.1.
Proof.
  refine (proj1 (listing_is_repeatable sample_channels proxy_ABC init _)).
  apply (bool_decide_unpack (NoDup (HlsProxy.v_id <$> proxy_ABC))).
  vm_compute. exact I.
Defined.

Lemma decorate_named chs p m inf n :
  m !! HlsProxy.v_id p = Some inf → truthy (channelName inf) = Some n →
  decorate chs p m
  = (mkItem (HlsProxy.v_id p) n (truthy (logo inf))
       (default (HlsProxy.v_url p) (truthy (originalUrl inf)))
       ("/stream/" +:+ HlsProxy.v_id p +:+ "/playlist.m3u8")
       (match truthy (i_startTime inf) with
        | Some t => Some t
        | None => truthy (Some (HlsProxy.v_startTime p))
        end)
       (default "unknown" (truthy (Some (HlsProxy.v_status p))))
       (HlsProxy.v_ignoreErrors p), m).
Proof. intros Hm Hn. unfold decorate. rewrite Hm. simpl. by rewrite !Hn. Qed.

Lemma decorate_all_named chs ps sid inf n : ∀ m a,
  m !! sid = Some inf → truthy (channelName inf) = Some n →
  a ∈ (decorate_all chs ps m).1 → it_id a = sid →
  it_channelName a = n ∧ it_logo a = truthy (logo inf)
  ∧ (∀ u, truthy (originalUrl inf) = Some u → it_url a = u)
  ∧ (∀ t, truthy (i_startTime inf) = Some t → it_startTime a = Some t)
  ∧ it_proxyUrl a = "/stream/" +:+ sid +:+ "/playlist.m3u8".
Proof.
  induction ps as [|p ps IH]; intros m a Hm Hn; simpl; [by intros ?%elem_of_nil|].
  destruct (decide (HlsProxy.v_id p = sid)) as [Hp|Hp].
  - rewrite <- Hp in Hm. rewrite (decorate_named chs p m inf n Hm Hn).
    rewrite Hp in Hm.
    specialize (IH m a Hm Hn). destruct (decorate_all chs ps m) as [its m2].
    simpl in *. intros [->|Ha]%elem_of_cons Hid; [|by apply IH].
    simpl. rewrite Hp. repeat split; try done.
    + by intros u ->.
    + by intros t ->.
  - assert (H1 : (decorate chs p m).2 !! sid = Some inf)
      by (by rewrite decorate_other).
    assert (H2 : it_id (decorate chs p m).1 = HlsProxy.v_id p)
      by (unfold decorate; by repeat case_match).
    destruct (decorate chs p m) as [it m1]. simpl in *.
    specialize (IH m1 a H1 Hn). destruct (decorate_all chs ps m1) as [its m2].
    simpl in *. intros [->|Ha]%elem_of_cons Hid; [congruence|by apply IH].
Qed.

(** X16.  Metadata stored for a session wins over what the proxy reports:
    as long as the session's entry has a channel name, every listing
    shows that name and the stored logo, shows the stored original url
    instead of the url the proxy runs, and shows the stored start time,
    that is the time of creation, whatever start time the proxy reports
    (a restart renews the proxy's, not the backend's).  The playlist
    address is always rebuilt from the id. *)
Theorem listing_shows_stored_metadata chs ps s sid inf n a :
  activeStreamsInfo s !! sid = Some inf → truthy (channelName inf) = Some n →
  a ∈ listing_of chs ps s → it_id a = sid →
  (get_streams chs (Some ps) s).1.1 = mkResponse 200 (BItems (listing_of chs ps s))
  ∧ it_channelName a = n ∧ it_logo a = truthy (logo inf)
  ∧ (∀ u, truthy (originalUrl inf) = Some u → it_url a = u)
  ∧ (∀ t, truthy (i_startTime inf) = Some t → it_startTime a = Some t)
  ∧ it_proxyUrl a = "/stream/" +:+ sid +:+ "/playlist.m3u8".
Proof.
  intros Hm Hn Ha Hid.
  split; [apply BackendFacts.listing_follows_order_response|].
  eapply decorate_all_named; eauto.
  unfold listing_of in Ha. by rewrite BackendFacts.array_sort_perm in Ha.
Qed.

Lemma listing_shows_stored_metadata_witness :
  ∃ a, a ∈ listing_of []
             [HlsProxy.mkView "A" "http://user:pw@src/1" "x" "running" "later" true]
             state_ABC
       ∧ it_startTime a = Some "t1" ∧ it_url a = "http://src/1".
Proof.
  assert (Hin : ∃ a, a ∈ listing_of []
             [HlsProxy.mkView "A" "http://user:pw@src/1" "x" "running" "later" true]
             state_ABC ∧ it_id a = "A").
  { eexists. split; [vm_compute; apply list_elem_of_here|reflexivity]. }
  destruct Hin as (a & Ha & Hid). exists a. split; [exact Ha|].
  destruct (listing_shows_stored_metadata [] _ state_ABC "A"
              (mkInfo (Some "Unknown Channel") None (Some "http://src/1") (Some "t1"))
              "Unknown Channel" a eq_refl eq_refl Ha Hid)
    as (_ & _ & _ & Hu & Ht & _).
  split; [by apply Ht|by apply Hu].
Defined.

Local Transparent truthy.

(** ** Polls *)

Lemma write_stats_ids sid data l : b_id <$> write_stats sid data l = b_id <$> l.
Proof.
  induction l as [|y l IH]; [done|]. simpl write_stats.
  destruct (is_stream sid y); rewrite !fmap_cons; [done|by rewrite IH].
Qed.

Lemma write_stats_find sid data l x :
  find (is_stream sid) l = Some x →
  find (is_stream sid) (write_stats sid data l) = Some (mkBstream (b_id x) (Some data)).
Proof.
  induction l as [|y l IH]; simpl; [done|].
  destruct (is_stream sid y) eqn:Hy; simpl.
  - intros [= ->]. unfold is_stream in *. simpl. by rewrite Hy.
  - rewrite Hy. apply IH.
Qed.




(** X18.  Whatever the proxy answers and whatever the state, one poll
    never adds a stream to [streams] nor removes one, never touches the
    interval timers, the stored order, the metadata or the client sets,
    and never sends a per-stream [stream_stats] message. *)
Theorem poll_footprint r sid s :
  let s' := (pollStreamStatus r sid s).1 in
  b_id <$> streams s' = b_id <$> streams s
  ∧ activePolling s' = activePolling s ∧ intervals s' = intervals s
  ∧ nextTimer s' = nextTimer s
  ∧ activeStreamsInfo s' = activeStreamsInfo s ∧ streamOrder s' = streamOrder s
  ∧ connectedClients s' = connectedClients s ∧ wssClients s' = wssClients s
  ∧ Forall (λ ev, is_stats_event ev = false) (pollStreamStatus r sid s).2.
Proof.
  unfold pollStreamStatus, updateStreamStats, broadcastStreams.
  destruct (find (is_stream sid) (streams s)) as [x|] eqn:Hx; [|by repeat constructor].
  destruct r as [status data|[[status text]|] msg]; simpl.
  - destruct (decide (status = 200)); simpl.
    + rewrite (write_stats_find sid data _ x Hx). simpl.
      rewrite write_stats_ids. do 8 (split; [done|]).
      constructor; [done|]. apply Forall_fmap. by apply Forall_true.
    + rewrite Hx. simpl. by repeat constructor.
  - destruct (decide (status ≠ 404)); rewrite Hx; simpl; by repeat constructor.
  - rewrite Hx. simpl. by repeat constructor.
Qed.

Lemma take_timeout_length sid l :
  sid ∈ l → ∃ rest, take_timeout sid l = Some rest ∧ S (length rest) = length l.
Proof.
  induction l as [|y l IH]; [by intros ?%elem_of_nil|]. simpl.
  destruct (decide (y = sid)) as [->|Hne]; [intros _; by eexists|].
  intros [?|Hin]%elem_of_cons; [congruence|].
  destruct (IH Hin) as (rest & -> & Hlen). exists (y :: rest). simpl.
  split; [done|lia].
Qed.

Lemma poll_known_timeouts r sid s x :
  find (is_stream sid) (streams s) = Some x →
  timeouts (pollStreamStatus r sid s).1 = timeouts s ++ [sid].
Proof.
  intros Hx. unfold pollStreamStatus, updateStreamStats. rewrite Hx.
  destruct r as [status data|[[status text]|] msg]; simpl.
  - destruct (decide (status = 200)); simpl; [|by rewrite Hx].
    by rewrite (write_stats_find sid data _ x Hx).
  - destruct (decide (status ≠ 404)); by rewrite Hx.
  - by rewrite Hx.
Qed.

(** X19.  Every poll of a known stream schedules one more one-shot poll,
    also when it was fired by the interval timer.  So each tick of the
    interval adds a pending poll, and a pending poll that fires replaces
    itself: the pending polls of a known stream never drain, and grow by
    one with every tick. *)
Theorem polls_of_known_stream_pile_up r sid s x :
  find (is_stream sid) (streams s) = Some x →
  timeouts (pollStreamStatus r sid s).1 = timeouts s ++ [sid]
  ∧ (∀ timer, intervals s !! timer = Some sid →
       length (timeouts (step (Tick timer r) s).1) = S (length (timeouts s)))
  ∧ (sid ∈ timeouts s →
       length (timeouts (step (Timeout sid r) s).1) = length (timeouts s)).
Proof.
  intros Hx. split; [by eapply poll_known_timeouts|]. split.
  - intros timer Ht. simpl. rewrite Ht.
    rewrite (poll_known_timeouts r sid s x Hx), length_app. simpl. lia.
  - intros Hin. simpl. destruct (take_timeout_length sid _ Hin) as (rest & -> & Hlen).
    rewrite (poll_known_timeouts r sid (set_timeouts rest s) x Hx), length_app.
    simpl. lia.
Qed.

Lemma polls_of_known_stream_pile_up_witness :
  length (timeouts (run [Tick 0 (Rejected None "x"); Tick 0 (Rejected None "x")]
                      state_polled).1) = 2
  ∧ length (timeouts (step (Tick 0 (Resolved 200 "ok")) state_polled).1) = 1.
Proof.
  split; [reflexivity|].
  destruct (polls_of_known_stream_pile_up (Resolved 200 "ok") "A" state_polled
              (mkBstream "A" None) eq_refl) as (_ & H & _).
  exact (H 0 eq_refl).
Defined.

(** ** [updateStreamOrder] *)

(** X20.  Adding an id to the stored order puts it last when it is new
    and does nothing when it is already there, so adding twice is adding
    once; removing an id takes every occurrence out and keeps the others
    in their order; and removing an id right after adding it, when it
    was new, gives back the state there was. *)
Theorem updateStreamOrder_add_remove sid s :
  let added := updateStreamOrder sid false s in
  let removed := updateStreamOrder sid true s in
  (sid ∈ streamOrder s → added = s)
  ∧ (sid ∉ streamOrder s → streamOrder added = streamOrder s ++ [sid])
  ∧ updateStreamOrder sid false added = added
  ∧ (sid ∉ streamOrder removed)
  ∧ filter (λ i, i ≠ sid) (streamOrder removed) = streamOrder removed
  ∧ streamOrder removed = filter (λ i, i ≠ sid) (streamOrder s)
  ∧ updateStreamOrder sid true removed = removed
  ∧ (sid ∉ streamOrder s → updateStreamOrder sid true added = s).
Proof.
  unfold updateStreamOrder, includes. simpl.
  assert (Hfilter : sid ∉ streamOrder s →
                    filter (λ i, i ≠ sid) (streamOrder s) = streamOrder s).
  { intros Hs. induction (streamOrder s) as [|y l IH]; [done|].
    apply not_elem_of_cons in Hs as [Hne Hs].
    rewrite filter_cons_True by done. by rewrite IH. }
  assert (Hff : filter (λ i, i ≠ sid) (filter (λ i, i ≠ sid) (streamOrder s))
                = filter (λ i, i ≠ sid) (streamOrder s)).
  { rewrite list_filter_filter. apply list_filter_iff. tauto. }
  split; [intros Hin; by rewrite bool_decide_eq_true_2|].
  split; [intros Hin; by rewrite bool_decide_eq_false_2|].
  split.
  { destruct (bool_decide (sid ∈ streamOrder s)) eqn:Hb; simpl; rewrite ?Hb; [done|].
    rewrite bool_decide_eq_true_2; [done|].
    apply elem_of_app. right. apply list_elem_of_here. }
  split; [rewrite list_elem_of_filter; by intros [? _]|].
  split; [done|]. split; [done|]. split; [by rewrite Hff|].
  intros Hin. rewrite bool_decide_eq_false_2 by done. simpl.
  rewrite filter_app, Hfilter by done.
  rewrite filter_cons_False, filter_nil, app_nil_r by (intros H; by apply H).
  by destruct s.
Qed.

Lemma updateStreamOrder_add_remove_witness :
  updateStreamOrder "D" true (updateStreamOrder "D" false state_ABC) = state_ABC
  ∧ updateStreamOrder "A" false state_ABC = state_ABC.
Proof.
  destruct (updateStreamOrder_add_remove "D" state_ABC) as (_ & _ & _ & _ & _ & _ & _ & H).
  destruct (updateStreamOrder_add_remove "A" state_ABC) as (H' & _).
  split.
  - apply H. vm_compute. intros Hin.
    repeat (apply elem_of_cons in Hin as [Hin|Hin]; [discriminate Hin|]).
    by apply elem_of_nil in Hin.
  - apply H'. vm_compute. apply list_elem_of_In. simpl. tauto.
Defined.

End BackendMore.

(** * The streams page and its socket client: properties *)

Module FrontendFacts.
Import Frontend.

(** ** Drag and drop *)

Lemma streamIds_defined (l : list Backend.item) :
  mapM (fmap Backend.it_id) (Some <$> l) = Some (Backend.it_id <$> l).
Proof.
  apply mapM_Some. induction l as [|x l IH]; simpl; by constructor.
Qed.

Lemma drag_items_defined source destination streams x :
  streams !! source = Some x →
  drag_items source destination streams
  = Some <$> (take destination (delete source streams)
              ++ x :: drop destination (delete source streams)).
Proof.
  intros Hx. unfold drag_items.
  rewrite list_lookup_fmap, Hx. simpl.
  by rewrite fmap_app, fmap_cons, fmap_take, fmap_drop, list_fmap_delete.
Qed.

(** X21.  Dropping the item of position [source] at position
    [destination] moves exactly that item: the page shows the same
    streams, as many as before, with the dragged one at the destination
    (at the end, when the destination lies beyond it) and all others in
    the order they had; the ids posted to the reorder route are the ids
    of the streams in the order shown; dropping an item where it was
    changes nothing.  A drop without destination posts nothing. *)
Theorem drag_moves_one_item source destination streams x :
  streams !! source = Some x →
  let shown := take destination (delete source streams)
               ++ x :: drop destination (delete source streams) in
  let position := destination `min` (length streams - 1) in
  handleDragEnd (Some destination) source streams
  = (Some <$> shown, Some (Backend.it_id <$> shown))
  ∧ shown ≡ₚ streams
  ∧ length shown = length streams
  ∧ shown !! position = Some x
  ∧ delete position shown = delete source streams
  ∧ (destination = source → shown = streams)
  ∧ handleDragEnd None source streams = (Some <$> streams, None).
Proof.
  intros Hx shown position.
  assert (Hlen : length (delete source streams) = length streams - 1)
    by (apply length_delete; eauto).
  assert (Hpos : position = length (take destination (delete source streams)))
    by (rewrite length_take, Hlen; done).
  split.
  { unfold handleDragEnd. rewrite (drag_items_defined _ _ _ x Hx).
    by rewrite streamIds_defined. }
  split.
  { subst shown. rewrite <- Permutation_middle, take_drop.
    symmetry. by apply delete_Permutation. }
  split.
  { subst shown. rewrite length_app. simpl.
    rewrite Nat.add_succ_r, <- length_app, take_drop, Hlen.
    apply lookup_lt_Some in Hx. lia. }
  split; [by apply list_lookup_middle|].
  split; [rewrite Hpos; subst shown; by rewrite delete_middle, take_drop|].
  split; [|done].
  intros ->. subst shown. rewrite delete_take_drop.
  assert (Hs : length (take source streams) = source).
  { rewrite length_take. apply lookup_lt_Some in Hx. lia. }
  rewrite take_app_length' by done. rewrite drop_app_length' by done.
  by apply take_drop_middle.
Qed.

Lemma drag_moves_one_item_witness :
  (handleDragEnd (Some 0) 2
     [ Backend.mkItem "A" "" None "" "" None "" false;
       Backend.mkItem "B" "" None "" "" None "" false;
       Backend.mkItem "C" "" None "" "" None "" false ]).2
  = Some ["C"; "A"; "B"].
Proof.
  destruct (drag_moves_one_item 2 0
     [ Backend.mkItem "A" "" None "" "" None "" false;
       Backend.mkItem "B" "" None "" "" None "" false;
       Backend.mkItem "C" "" None "" "" None "" false ]
     (Backend.mkItem "C" "" None "" "" None "" false) eq_refl) as [-> _].
  reflexivity.
Defined.

(** X22.  The page posts the ids of all streams it shows.  So when one
    of the streams shown has no entry in the backend's
    [activeStreamsInfo], as after that stream was stopped through the
    backend, every drop is answered with the validation error and the
    stored order stays as it was. *)
Theorem drag_rejected_for_unknown_stream source destination streams x y s ids :
  streams !! source = Some x →
  y ∈ streams → Backend.activeStreamsInfo s !! Backend.it_id y = None →
  (handleDragEnd (Some destination) source streams).2 = Some ids →
  Backend.post_reorder (Some ids) s
  = (Backend.mkResponse 400 (Backend.BError "Invalid stream ID in order array"), s, []).
Proof.
  intros Hx Hy Hnone Hids.
  unfold handleDragEnd in Hids. simpl in Hids.
  rewrite (drag_items_defined _ _ _ x Hx), streamIds_defined in Hids.
  injection Hids as <-.
  assert (Hin : Backend.it_id y
                ∈ Backend.it_id <$> (take destination (delete source streams)
                     ++ x :: drop destination (delete source streams))).
  { apply list_elem_of_fmap. exists y. split; [done|].
    rewrite <- Permutation_middle, take_drop.
    rewrite <- (delete_Permutation _ _ _ Hx). done. }
  unfold Backend.post_reorder.
  destruct (forallb _ _) eqn:Hf; [|done].
  rewrite forallb_forall in Hf. apply list_elem_of_In, Hf in Hin.
  apply bool_decide_eq_true in Hin. rewrite Hnone in Hin. by destruct Hin.
Qed.

Lemma drag_rejected_for_unknown_stream_witness :
  Backend.code
    (Backend.post_reorder (Some ["C"; "A"; "B"])
       (Backend.post_stop "A" true Backend.state_ABC).1.2).1.1 = 400.
Proof.
  rewrite (drag_rejected_for_unknown_stream 2 0
     [ Backend.mkItem "A" "" None "" "" None "" false;
       Backend.mkItem "B" "" None "" "" None "" false;
       Backend.mkItem "C" "" None "" "" None "" false ]
     (Backend.mkItem "C" "" None "" "" None "" false)
     (Backend.mkItem "A" "" None "" "" None "" false)
     (Backend.post_stop "A" true Backend.state_ABC).1.2 ["C"; "A"; "B"]
     eq_refl (list_elem_of_here _ _) eq_refl eq_refl).
  reflexivity.
Defined.

(** ** Reconnection *)

Lemma acts_snoc l a c : acts (l ++ [a]) c = act a (acts l c).
Proof. unfold acts. by rewrite foldl_app. Qed.





Lemma act_chain_ok a c :
  a ≠ Connect → a ≠ Disconnect → chain_ok c → chain_ok (act a c).
Proof.
  intros Hc Hd (Hone & Hmax & Hleft). destruct a as [| |cb|cb|k|i]; simpl; try done.
  - unfold onclose. destruct (decide (k ∈ sockets c)) as [Hk|]; [|done].
    assert (Hsize : size (sockets c ∖ {[k]}) = size (sockets c) - 1).
    { rewrite size_difference by set_solver. by rewrite size_singleton. }
    assert (Hpos : size (sockets c) ≠ 0).
    { intros H0. apply size_empty_iff in H0. set_solver. }
    assert (Ht : timers c = []) by (destruct (timers c); [done|simpl in *; lia]).
    repeat split; simpl; rewrite ?Hsize, ?Ht.
    + destruct (Z.ltb_spec (reconnectAttempts c) maxReconnectAttempts); simpl; lia.
    + done.
    + destruct (Z.ltb_spec (reconnectAttempts c) maxReconnectAttempts); simpl; done.
  - unfold timer_fires. destruct (timers c !! i) as [d|] eqn:Hi; [|done].
    assert (Hlen : length (timers c) = 1 ∧ size (sockets c) = 0).
    { apply lookup_lt_Some in Hi. lia. }
    destruct Hlen as [Hlen Hs]. apply size_empty_iff, leibniz_equiv in Hs.
    assert (Hne : timers c ≠ []) by (intros H0; by rewrite H0 in Hi).
    assert (Hdel : delete i (timers c) = []).
    { apply length_zero_iff_nil. rewrite length_delete by eauto. lia. }
    repeat split; simpl; rewrite ?Hdel, ?Hs.
    + rewrite union_empty_r_L, size_singleton. simpl. lia.
    + specialize (Hleft Hne). lia.
    + done.
Qed.

Lemma acts_chain_ok l : ∀ c,
  single_session l → chain_ok c → chain_ok (acts l c).
Proof.
  induction l as [|a l IH] using rev_ind; intros c Hl Hc; [done|].
  apply Forall_app in Hl as [Hl Ha]. apply Forall_singleton in Ha as [Ha1 Ha2].
  rewrite acts_snoc. apply act_chain_ok; [done..|]. by apply IH.
Qed.

Lemma acts_socket_count l :
  single_session l →
  Z.of_nat (nextSocket (acts l (connect new_client)))
  = (1 + reconnectAttempts (acts l (connect new_client)))%Z.
Proof.
  induction l as [|a l IH] using rev_ind; intros Hl; [done|].
  apply Forall_app in Hl as [Hl Ha]. apply Forall_singleton in Ha as [Ha1 Ha2].
  specialize (IH Hl). rewrite acts_snoc.
  destruct a as [| |cb|cb|k|i]; simpl; try done.
  - unfold onclose. by destruct (decide (k ∈ sockets _)).
  - unfold timer_fires. destruct (timers _ !! i); simpl; lia.
Qed.

(** X24.  A page that connects once and never disconnects has one socket
    at a time: at any moment there is at most one open socket or one
    pending reconnection, never both.  It reconnects at most five times
    in its whole life; when the socket closes after the fifth, the client
    is left without socket and without pending reconnection, for good. *)
Theorem single_session_reconnects_five_times l :
  single_session l →
  let c := acts l (connect new_client) in
  (size (sockets c) + length (timers c) ≤ 1)%nat
  ∧ (reconnectAttempts c ≤ 5)%Z
  ∧ Z.of_nat (nextSocket c) = (1 + reconnectAttempts c)%Z
  ∧ (reconnectAttempts c = 5%Z →
     ∀ k, k ∈ sockets c →
          sockets (onclose k c) = ∅ ∧ timers (onclose k c) = []
          ∧ ∀ l', single_session l' →
                  sockets (acts l' (onclose k c)) = ∅
                  ∧ timers (acts l' (onclose k c)) = []).
Proof.
  intros Hl c.
  assert (Hc : chain_ok c).
  { apply acts_chain_ok; [done|].
    repeat split; simpl; try done;
      try (rewrite union_empty_r_L, size_singleton; lia). }
  destruct Hc as (Hone & Hmax & Hleft).
  split; [done|]. split; [done|]. split.
  { by apply acts_socket_count. }
  intros H5 k Hk.
  assert (Ht : timers c = []).
  { destruct (decide (timers c = [])) as [|Hne]; [done|]. exfalso.
    specialize (Hleft Hne). unfold maxReconnectAttempts in *. lia. }
  assert (Hs : sockets c = {[k]}).
  { rewrite Ht in Hone. simpl in Hone.
    apply set_eq. intros j. rewrite elem_of_singleton. split; [|by intros ->].
    intros Hj. destruct (decide (j = k)) as [|Hne]; [done|]. exfalso.
    assert (Hsub : (size ({[j]} ∪ {[k]} : gset nat) ≤ size (sockets c))%nat).
    { apply subseteq_size. intros i [Hi|Hi]%elem_of_union;
        apply elem_of_singleton in Hi; by subst i. }
    rewrite size_union, !size_singleton in Hsub; [lia|].
    intros i Hi1 Hi2. apply elem_of_singleton in Hi1, Hi2. congruence. }
  assert (Hdead : sockets (onclose k c) = ∅ ∧ timers (onclose k c) = []
                  ∧ reconnectAttempts (onclose k c) = 5%Z).
  { unfold onclose. rewrite decide_True by done. simpl.
    rewrite Hs, Ht, H5. simpl. split; [apply difference_diag_L|done]. }
  destruct Hdead as (Hd1 & Hd2 & Hd3). split; [done|]. split; [done|].
  intros l' Hl'. induction l' as [|a l' IH] using rev_ind; [done|].
  apply Forall_app in Hl' as [Hl' Ha]. apply Forall_singleton in Ha as [Ha1 Ha2].
  destruct (IH Hl') as [IH1 IH2]. rewrite acts_snoc.
  set (c' := acts l' (onclose k c)) in *.
  destruct a as [| |cb|cb|j|i]; simpl; try done.
  - unfold onclose. rewrite IH1.
    by rewrite decide_False by apply not_elem_of_empty.
  - unfold timer_fires. by rewrite IH2.
Qed.

Lemma single_session_reconnects_five_times_witness :
  reconnectAttempts
    (acts [Close 0; Timer 0; Close 1; Timer 0; Subscribe 3] (connect new_client)) = 2%Z
  ∧ (size (sockets (acts [Close 0; Timer 0; Close 1; Timer 0; Subscribe 3]
                      (connect new_client))) + 0 ≤ 1)%nat.
Proof.
  split; [reflexivity|].
  refine (proj1 (single_session_reconnects_five_times
                   [Close 0; Timer 0; Close 1; Timer 0; Subscribe 3] _)).
  repeat constructor; discriminate.
Defined.

(** X25.  [disconnect] does not keep the client disconnected.  It resets
    the attempt count before the socket it closes has reported its
    [close]; so that [close] event finds attempts left and schedules a
    reconnection after 1000 ms, and when that timer fires the client
    opens a new socket, with no listener left to receive anything. *)
Theorem disconnect_is_followed_by_reconnect c k :
  ws c = Some k → k ∈ sockets c →
  let c1 := disconnect c in
  let c2 := onclose k c1 in
  let c3 := timer_fires (length (timers c)) c2 in
  ws c1 = None ∧ listeners c1 = ∅
  ∧ timers c2 = timers c ++ [1000%Z]
  ∧ ws c3 = Some (nextSocket c)
  ∧ nextSocket c ∈ sockets c3
  ∧ listeners c3 = ∅
  ∧ reconnectAttempts c3 = 1%Z ∧ reconnectDelay c3 = 2000%Z
  ∧ timers c3 = timers c.
Proof.
  intros Hws Hk c1 c2 c3.
  assert (H2 : c2 = mkClient None (sockets c ∖ {[k]}) ∅ 0 1000
                      (timers c ++ [1000%Z]) (nextSocket c)).
  { subst c2 c1. unfold onclose, disconnect. simpl. by rewrite decide_True. }
  assert (H3 : c3 = mkClient (Some (nextSocket c))
                      ({[nextSocket c]} ∪ sockets c ∖ {[k]}) ∅ 1 2000
                      (timers c) (S (nextSocket c))).
  { subst c3. rewrite H2. unfold timer_fires. simpl.
    rewrite list_lookup_middle by done. unfold connect. simpl.
    f_equal. by rewrite (delete_middle (timers c) [] 1000%Z), app_nil_r. }
  rewrite H2, H3. simpl. repeat split; try done.
  apply elem_of_union_l. by apply elem_of_singleton.
Qed.

Lemma disconnect_is_followed_by_reconnect_witness :
  ws (acts [Connect; Disconnect; Close 0; Timer 0] new_client) = Some 1.
Proof.
  destruct (disconnect_is_followed_by_reconnect (connect new_client) 0 eq_refl)
    as (_ & _ & _ & H & _).
  - apply elem_of_union_l. by apply elem_of_singleton.
  - exact H.
Defined.

(** ** Statistics on the page *)

(** X26.  A [stream_stats] message replaces the stats kept for its stream
    by the old fields overlaid with the new ones and a fresh
    [lastUpdate]: a field the new snapshot carries takes the new value, a
    field it lacks keeps the old one (so an [error] once reported stays
    until a later snapshot overwrites it), and the stats of every other
    stream are untouched.  A message of any other type, such as the
    [streams] messages the backend broadcasts, changes nothing. *)
Theorem stats_update_merges now data prevStats :
  let next := handleStreamUpdate now data prevStats in
  let old := default ∅ (prevStats !! m_streamId data) in
  (m_type data = "stream_stats" →
     ∃ merged, next !! m_streamId data = Some merged
       ∧ merged !! "lastUpdate" = Some now
       ∧ (∀ f v, f ≠ "lastUpdate" → m_stats data !! f = Some v → merged !! f = Some v)
       ∧ (∀ f, f ≠ "lastUpdate" → m_stats data !! f = None → merged !! f = old !! f)
       ∧ (∀ sid, sid ≠ m_streamId data → next !! sid = prevStats !! sid))
  ∧ (m_type data ≠ "stream_stats" → next = prevStats)
  ∧ (∀ l, m_type data = message_type (Backend.MStreams l) → next = prevStats).
Proof.
  unfold handleStreamUpdate. split; [|split].
  - intros Ht. rewrite decide_True by done. eexists.
    rewrite lookup_insert_eq. split; [done|]. split; [by rewrite lookup_insert_eq|].
    split; [|split].
    + intros f v Hf Hv. rewrite lookup_insert_ne by done.
      by apply lookup_union_Some_l.
    + intros f Hf Hv. rewrite lookup_insert_ne by done.
      by apply lookup_union_r.
    + intros sid Hs. by rewrite lookup_insert_ne.
  - intros Ht. by rewrite decide_False.
  - intros l Hm. rewrite decide_False; [done|]. rewrite Hm. discriminate.
Qed.

Lemma stats_update_merges_witness :
  handleStreamUpdate "t2" (mkMessage "stream_stats" "A" {["currentSegment" := "7"]})
    {["A" := {["error" := "timeout"; "currentSegment" := "6"]}]} !! "A"
  = Some {["lastUpdate" := "t2"; "error" := "timeout"; "currentSegment" := "7"]}
  ∧ handleStreamUpdate "t2" (mkMessage "streams" "" ∅) {["A" := ∅]} = {["A" := ∅]}.
Proof.
  split; [by vm_compute|].
  exact (proj1 (proj2 (stats_update_merges "t2" (mkMessage "streams" "" ∅) {["A" := ∅]}))
           ltac:(discriminate)).
Defined.

End FrontendFacts.

(** * Playlist parsing: properties *)

Module PlaylistFacts.
Import Playlist.

Lemma split_lines_no_newline l : no_newline l → split_lines l = [l].
Proof.
  induction l as [|c l IH]; [done|]. simpl. intros [Hc Hl].
  destruct (Ascii.eqb_spec c "010"%char); [congruence|]. by rewrite IH.
Qed.

Lemma split_lines_cons l rest :
  no_newline l →
  split_lines (l +:+ String "010"%char rest) = l :: split_lines rest.
Proof.
  induction l as [|c l IH]; [done|]. simpl. intros [Hc Hl].
  destruct (Ascii.eqb_spec c "010"%char); [congruence|]. by rewrite IH.
Qed.

Lemma split_join lines :
  lines ≠ [] → Forall no_newline lines → split_lines (join_lines lines) = lines.
Proof.
  induction lines as [|l ls IH]; [by intros []|]. intros _ Hl.
  apply Forall_cons in Hl as [Hl Hls]. destruct ls as [|l' ls].
  - by apply split_lines_no_newline.
  - change (join_lines (l :: l' :: ls))
      with (l +:+ String "010"%char (join_lines (l' :: ls))).
    rewrite split_lines_cons by done. by rewrite IH.
Qed.

Lemma prefix_header_hash l :
  String.prefix "#EXTINF:" l = true → String.prefix "#" l = true.
Proof.
  destruct l as [|c l]; [done|].
  change (String.prefix "#EXTINF:" (String c l))
    with (if Ascii.ascii_dec "#" c then String.prefix "EXTINF:" l else false).
  change (String.prefix "#" (String c l))
    with (if Ascii.ascii_dec "#" c then String.prefix "" l else false).
  destruct (Ascii.ascii_dec "#" c); [|done]. intros _. by destruct l.
Qed.

Section parsers.
Context (trim : string → string)
        (match_name match_logo match_group match_id match_tvgName
           : string → option string).

Local Abbreviation parse_line := (parse_line trim match_name match_logo match_group match_id).
Local Abbreviation parse_lines := (parse_lines trim match_name match_logo match_group match_id).
Local Abbreviation parseM3U := (parseM3U trim match_name match_logo match_group match_id).
Local Abbreviation pending_of := (pending_of trim match_logo match_group match_id).
Local Abbreviation load_line :=
  (load_line trim match_name match_logo match_group match_id match_tvgName).
Local Abbreviation load_channels :=
  (load_channels trim match_name match_logo match_group match_id match_tvgName).
Local Abbreviation info_of := (info_of match_name match_logo match_group match_id match_tvgName).
Local Abbreviation is_named_header := (is_named_header trim match_name).
Local Abbreviation is_url_line := (is_url_line trim).
Local Abbreviation is_header := (is_header trim).

Local Abbreviation parse_inv :=
  (parse_inv trim match_name match_logo match_group match_id).
Local Abbreviation from_header :=
  (from_header trim match_name match_logo match_group match_id).
Local Abbreviation load_inv :=
  (load_inv trim match_name match_logo match_group match_id match_tvgName).
Local Abbreviation pair_ok := (pair_ok trim match_name).
Local Abbreviation is_skipped := (is_skipped trim match_name).
Local Abbreviation plain_line := (plain_line trim match_name).
Local Abbreviation to_entry := (to_entry trim).
Local Abbreviation agree := (agree trim).
Local Abbreviation pair_entry :=
  (pair_entry trim match_name match_logo match_group match_id).

Lemma filter_snoc_length (P : string → Prop) `{∀ x, Decision (P x)} seen raw :
  length (filter P (seen ++ [raw]))
  = length (filter P seen) + (if decide (P raw) then 1 else 0).
Proof.
  rewrite filter_app, length_app. f_equal.
  rewrite filter_cons, filter_nil. by destruct (decide (P raw)).
Qed.

Lemma from_header_mono seen raw p : from_header seen p → from_header (seen ++ [raw]) p.
Proof.
  intros (h & n & Hh & ?). exists h, n. split; [|done].
  apply elem_of_app. by left.
Qed.

Lemma header_nonempty raw : is_header raw = true → trim raw ≠ "".
Proof. unfold Playlist.is_header. by intros H Heq; rewrite Heq in H. Qed.

Lemma parse_line_inv seen st raw :
  parse_inv seen st → parse_inv (seen ++ [raw]) (parse_line st raw).
Proof.
  intros (Hout & Hpend & Hn & Hu).
  assert (Hmono : parse_inv (seen ++ [raw]) st).
  { split; [|split; [|split]].
    - intros e (p & u & Hp & Hin & ?)%Hout. exists p, u.
      split; [by apply from_header_mono|]. split; [|done].
      apply elem_of_app. by left.
    - intros p Hp%Hpend. by apply from_header_mono.
    - rewrite filter_snoc_length. lia.
    - rewrite filter_snoc_length. lia. }
  unfold Playlist.parse_line.
  destruct (decide (trim raw = "")) as [|Hne]; [done|].
  destruct (String.prefix "#EXTINF:" (trim raw)) eqn:Hh.
  - destruct (match_name (trim raw)) as [n|] eqn:Hname; [|done].
    assert (Hnamed : is_named_header raw = true).
    { unfold Playlist.is_named_header, Playlist.is_header. rewrite Hh, Hname.
      simpl. first [reflexivity | apply bool_decide_eq_true; eauto]. }
    split; [|split; [|split]]; simpl.
    + apply Hmono.
    + intros p [= <-]. exists raw, n. split; [|done].
      apply elem_of_app. right. apply list_elem_of_here.
    + rewrite filter_snoc_length. rewrite decide_True by done.
      destruct st.2; lia.
    + apply Hmono.
  - destruct (String.prefix "#" (trim raw)) eqn:Hhash; simpl; [done|].
    destruct st as [out [p|]]; simpl in *; [|done].
    assert (Hurl : is_url_line raw = true).
    { unfold Playlist.is_url_line. rewrite Hhash.
      by rewrite bool_decide_eq_false_2. }
    split; [|split; [|split]]; simpl.
    + intros e [He|He]%elem_of_app.
      * by apply Hmono.
      * apply list_elem_of_singleton in He as ->. exists p, raw.
        split; [by apply from_header_mono, Hpend|].
        split; [|done]. apply elem_of_app. right. apply list_elem_of_here.
    + done.
    + rewrite length_app, filter_snoc_length. simpl. lia.
    + rewrite length_app, filter_snoc_length. rewrite decide_True by done.
      simpl. lia.
Qed.

Lemma parse_lines_inv lines : parse_inv lines (parse_lines lines).
Proof.
  induction lines as [|raw lines IH] using rev_ind.
  - split; [|split; [|split]]; simpl; try done. by intros e ?%elem_of_nil.
  - unfold Playlist.parse_lines. rewrite foldl_app. simpl.
    by apply parse_line_inv.
Qed.

(** X27.  Every channel [parseM3U] returns pairs a header line that has a
    name with a line that is not blank and does not start with a hash
    sign: the channel carries the trimmed name and the attributes
    of the header, and the trimmed url line as its url, which is
    therefore never empty and never a comment.  There are no more
    channels than headers with a name, and no more than url lines. *)
Theorem parseM3U_channels content e :
  let lines := split_lines content in
  e ∈ parseM3U content →
  (∃ h n u, h ∈ lines ∧ u ∈ lines
     ∧ String.prefix "#EXTINF:" (trim h) = true
     ∧ match_name (trim h) = Some n
     ∧ e = mkEntry (trim n) (default "" (match_logo (trim h)))
             (default "" (match_group (trim h))) (default "" (match_id (trim h)))
             (trim u))
  ∧ e_url e ≠ "" ∧ String.prefix "#" (e_url e) = false
  ∧ (length (parseM3U content)
     ≤ length (filter (λ l, is_named_header l = true) lines))%nat
  ∧ (length (parseM3U content)
     ≤ length (filter (λ l, is_url_line l = true) lines))%nat.
Proof.
  intros lines He.
  destruct (parse_lines_inv lines) as (Hout & _ & Hn & Hu).
  destruct (Hout e He) as (p & u & (h & n & Hh & Hhead & Hname & ->) & Hin & Hurl & ->).
  unfold Playlist.is_url_line in Hurl. apply andb_true_iff in Hurl as [H1 H2].
  apply negb_true_iff in H1, H2. apply bool_decide_eq_false in H1.
  split; [by exists h, n, u|]. split; [done|]. split; [done|].
  split; [|done]. unfold Playlist.parseM3U. fold lines. lia.
Qed.

Lemma parse_line_skipped st raw : is_skipped raw = true → parse_line st raw = st.
Proof.
  unfold Playlist.is_skipped, Playlist.is_named_header, Playlist.is_url_line,
    Playlist.is_header, Playlist.parse_line.
  destruct (decide (trim raw = "")) as [|Hne]; [done|].
  rewrite (bool_decide_eq_false_2 _ Hne).
  destruct (String.prefix "#EXTINF:" (trim raw)) eqn:Hh.
  - destruct (match_name (trim raw)) as [n|]; [|done].
    rewrite (bool_decide_eq_true_2 (is_Some (Some n))) by eauto. done.
  - by destruct (String.prefix "#" (trim raw)).
Qed.

Lemma parse_lines_skip lines st :
  foldl parse_line st lines
  = foldl parse_line st (filter (λ l, is_skipped l = false) lines).
Proof.
  revert st. induction lines as [|raw lines IH]; intros st; [done|].
  rewrite filter_cons. destruct (decide (is_skipped raw = false)) as [|Hs].
  - simpl. apply IH.
  - simpl. rewrite parse_line_skipped by by destruct (is_skipped raw). apply IH.
Qed.

Lemma parse_pairs pairs out :
  Forall pair_ok pairs →
  foldl parse_line (out, None) (concat (pair_lines <$> pairs))
  = (out ++ (pair_entry <$> pairs), None).
Proof.
  intros Hp. revert out. induction Hp as [|[h u] pairs [Hh Hu] _ IH]; intros out.
  - simpl. by rewrite app_nil_r.
  - simpl in Hh, Hu. rewrite fmap_cons. simpl concat.
    change (pair_lines (h, u) ++ concat (pair_lines <$> pairs))
      with (h :: u :: concat (pair_lines <$> pairs)).
    unfold Playlist.is_named_header, Playlist.is_header in Hh.
    apply andb_true_iff in Hh as [Hh Hn]. apply bool_decide_eq_true in Hn as [n Hn].
    unfold Playlist.is_url_line in Hu. apply andb_true_iff in Hu as [Hu1 Hu2].
    apply negb_true_iff in Hu1. apply bool_decide_eq_false in Hu1.
    assert (Hhne : trim h ≠ "") by (by intros Heq; rewrite Heq in Hh).
    assert (Hux : String.prefix "#EXTINF:" (trim u) = false).
    { destruct (String.prefix "#EXTINF:" (trim u)) eqn:E; [|done].
      apply prefix_header_hash in E. rewrite E in Hu2. done. }
    assert (H1 : parse_line (out, None) h = (out, Some (pending_of (trim h) n))).
    { unfold Playlist.parse_line. rewrite decide_False by done.
      by rewrite Hh, Hn. }
    assert (H2 : parse_line (out, Some (pending_of (trim h) n)) u
                 = (out ++ [pair_entry (h, u)], None)).
    { unfold Playlist.parse_line. rewrite decide_False by done.
      rewrite Hux, Hu2. simpl. unfold Playlist.pair_entry. simpl. by rewrite Hn. }
    cbn [foldl]. rewrite H1, H2, IH, fmap_cons. by rewrite <- app_assoc.
Qed.

Lemma parseM3U_paired_lines lines pairs :
  lines ≠ [] → Forall no_newline lines →
  filter (λ l, is_skipped l = false) lines = concat (pair_lines <$> pairs) →
  Forall pair_ok pairs →
  parseM3U (join_lines lines) = pair_entry <$> pairs.
Proof.
  intros Hne Hnl Hf Hp. unfold Playlist.parseM3U, Playlist.parse_lines.
  rewrite split_join by done. rewrite parse_lines_skip, Hf.
  by rewrite parse_pairs.
Qed.

(** X28.  Lines that are blank, comments or headers without a name do
    not change what [parseM3U] returns.  On a playlist whose other lines
    come in pairs, a header with a name followed by a url line, the
    parser returns one channel per pair, in the order of the playlist,
    each with the trimmed name and the attributes of its header and
    the trimmed url line. *)
Theorem parseM3U_paired lines pairs :
  lines ≠ [] → Forall no_newline lines →
  filter (λ l, is_skipped l = false) lines = concat (pair_lines <$> pairs) →
  Forall pair_ok pairs →
  parseM3U (join_lines lines) = pair_entry <$> pairs
  ∧ ∀ ls, parse_lines ls = parse_lines (filter (λ l, is_skipped l = false) ls).
Proof.
  intros. split; [by apply parseM3U_paired_lines|intros; apply parse_lines_skip].
Qed.

Lemma prefix_http l :
  String.prefix "http" l = true →
  l ≠ "" ∧ String.prefix "#" l = false ∧ String.prefix "#EXTINF:" l = false.
Proof.
  destruct l as [|c l]; [done|].
  change (String.prefix "http" (String c l))
    with (if Ascii.ascii_dec "h" c then String.prefix "ttp" l else false).
  change (String.prefix "#EXTINF:" (String c l))
    with (if Ascii.ascii_dec "#" c then String.prefix "EXTINF:" l else false).
  change (String.prefix "#" (String c l))
    with (if Ascii.ascii_dec "#" c then String.prefix "" l else false).
  destruct (Ascii.ascii_dec "h" c) as [<-|]; [|done]. intros _.
  by destruct (Ascii.ascii_dec "#" "h").
Qed.

Lemma load_line_inv seen st raw :
  load_inv seen st → load_inv (seen ++ [raw]) (load_line st raw).
Proof.
  intros (Hout & Hpend & Hn).
  assert (Hmono : load_inv (seen ++ [raw]) st).
  { split; [|split].
    - intros c (Hc & h & u & Hh & Hu & ?)%Hout. split; [done|]. exists h, u.
      split; [apply elem_of_app; by left|]. split; [apply elem_of_app; by left|done].
    - intros i (h & Hh & ?)%Hpend. exists h. split; [apply elem_of_app; by left|done].
    - rewrite filter_snoc_length. lia. }
  unfold Playlist.load_line.
  destruct (String.prefix "#EXTINF:" (trim raw)) eqn:Hh.
  - split; [|split]; simpl.
    + apply Hmono.
    + intros i [= <-]. exists raw. split; [|done].
      apply elem_of_app. right. apply list_elem_of_here.
    + rewrite filter_snoc_length. rewrite decide_True by done.
      destruct st.2; lia.
  - destruct (String.prefix "http" (trim raw)) eqn:Hhttp; [|done].
    destruct st as [out [i|]]; simpl in *; [|done].
    split; [|split]; simpl.
    + intros c [Hc|Hc]%elem_of_app.
      * by apply Hmono.
      * apply list_elem_of_singleton in Hc as ->. simpl. split; [done|].
        destruct (Hpend i eq_refl) as (h & Hin & Hhead & ->). exists h, raw.
        split; [apply elem_of_app; by left|].
        split; [apply elem_of_app; right; apply list_elem_of_here|done].
    + done.
    + rewrite length_app, filter_snoc_length. simpl. lia.
Qed.

Lemma load_lines_inv lines : load_inv lines (foldl load_line ([], None) lines).
Proof.
  induction lines as [|raw lines IH] using rev_ind.
  - split; [|split]; simpl; try done. by intros c ?%elem_of_nil.
  - rewrite foldl_app. simpl. by apply load_line_inv.
Qed.

(** X29.  Every channel the loop of [loadChannelsForProvider] collects
    has a url that starts with http and is a trimmed line of the
    playlist; its fields are read from a header line of the playlist,
    the name being Unknown Channel when the header has none and no
    optional field being set that the header does not carry.  There are
    no more channels than header lines. *)
Theorem load_channels_channels content :
  let lines := split_lines content in
  (∀ c, c ∈ load_channels content →
     String.prefix "http" (l_url c) = true
     ∧ ∃ h u, h ∈ lines ∧ u ∈ lines
         ∧ String.prefix "#EXTINF:" (trim h) = true
         ∧ l_url c = trim u
         ∧ i_name (l_info c) = default "Unknown Channel" (match_name (trim h))
         ∧ i_tvgId (l_info c) = match_id (trim h)
         ∧ i_tvgName (l_info c) = match_tvgName (trim h)
         ∧ i_logo (l_info c) = match_logo (trim h)
         ∧ i_group (l_info c) = match_group (trim h))
  ∧ (length (load_channels content)
     ≤ length (filter (λ l, is_header l = true) lines))%nat.
Proof.
  intros lines. destruct (load_lines_inv lines) as (Hout & _ & Hn).
  split.
  - intros c Hc. destruct (Hout c Hc) as (Hhttp & h & u & Hh & Hu & Hhead & Hi & Hurl).
    split; [done|]. exists h, u. rewrite Hi. by repeat split.
  - unfold Playlist.load_channels. fold lines. lia.
Qed.

Lemma agree_step st1 st2 raw :
  plain_line raw → agree st1 st2 → agree (parse_line st1 raw) (load_line st2 raw).
Proof.
  intros [Hp1 Hp2] [Ha1 Ha2].
  unfold Playlist.is_named_header, Playlist.is_url_line, Playlist.is_header in Hp1, Hp2.
  unfold Playlist.parse_line, Playlist.load_line.
  destruct (decide (trim raw = "")) as [Hb|Hne].
  - rewrite Hb. by simpl.
  - rewrite (bool_decide_eq_false_2 _ Hne) in Hp2.
    destruct (String.prefix "#EXTINF:" (trim raw)) eqn:Hh.
    + specialize (Hp1 eq_refl). simpl in Hp1.
      apply bool_decide_eq_true in Hp1 as [n Hn]. rewrite Hn.
      split; simpl; [done|]. unfold Playlist.to_pending, Playlist.info_of,
        Playlist.pending_of. simpl. by rewrite Hn.
    + destruct (String.prefix "#" (trim raw)) eqn:Hhash; simpl.
      * destruct (String.prefix "http" (trim raw)) eqn:Hhttp; [|done].
        apply prefix_http in Hhttp as (_ & Hx & _). congruence.
      * rewrite Hp2 by done. destruct st1 as [out1 p1], st2 as [out2 [i|]];
          simpl in *; subst; simpl; [|done].
        split; simpl; [|done]. by rewrite fmap_app.
Qed.

Lemma agree_lines lines st1 st2 :
  Forall plain_line lines → agree st1 st2 →
  agree (foldl parse_line st1 lines) (foldl load_line st2 lines).
Proof.
  intros Hl. revert st1 st2. induction Hl as [|raw lines Hraw _ IH]; intros st1 st2 Ha.
  - done.
  - simpl. apply IH. by apply agree_step.
Qed.

(** X30.  On a playlist in which every header line has a name and every
    line that is neither blank nor a comment starts with http, the two
    parsers read the same channels, in the same order and with the
    same urls; they differ in that [parseM3U] trims the name and turns
    an attribute that is not there into the empty string. *)
Theorem parsers_agree content :
  Forall plain_line (split_lines content) →
  parseM3U content = to_entry <$> load_channels content.
Proof.
  intros Hl. unfold Playlist.parseM3U, Playlist.parse_lines, Playlist.load_channels.
  by apply (agree_lines (split_lines content) ([], None) ([], None) Hl).
Qed.

(** A header without a name is where the two parsers part: the loop of
    [loadChannelsForProvider] makes a channel called Unknown Channel of
    it, [parseM3U] drops it. *)
Lemma unnamed_header h u :
  no_newline h → no_newline u →
  is_header h = true → match_name (trim h) = None →
  String.prefix "http" (trim u) = true →
  load_channels (join_lines [h; u]) = [mkLoaded (info_of (trim h)) (trim u)]
  ∧ i_name (info_of (trim h)) = "Unknown Channel"
  ∧ parseM3U (join_lines [h; u]) = [].
Proof.
  intros Hh Hu Hhead Hname Hhttp.
  unfold Playlist.load_channels, Playlist.parseM3U, Playlist.parse_lines.
  rewrite split_join by (done || by repeat constructor).
  unfold Playlist.is_header in Hhead.
  destruct (prefix_http _ Hhttp) as (Hne & Hhash & Hx).
  assert (Hhne : trim h ≠ "") by (by intros Heq; rewrite Heq in Hhead).
  split; [|split].
  - simpl. unfold Playlist.load_line at 2. rewrite Hhead.
    unfold Playlist.load_line. simpl. by rewrite Hx, Hhttp.
  - unfold Playlist.info_of. simpl. by rewrite Hname.
  - simpl. unfold Playlist.parse_line at 2. rewrite decide_False by done.
    rewrite Hhead, Hname. unfold Playlist.parse_line.
    rewrite decide_False by done. by rewrite Hx, Hhash.
Qed.

End parsers.

Lemma sample_no_newline : Forall no_newline sample_lines.
Proof. repeat constructor; discriminate. Qed.

Lemma parseM3U_channels_witness :
  mkEntry "One" "" "" "" "http://a/1"
    ∈ parseM3U id after_comma no_match no_match no_match (join_lines sample_lines)
  ∧ (length (parseM3U id after_comma no_match no_match no_match (join_lines sample_lines))
     ≤ length (filter (λ l, is_named_header id after_comma l = true)
                 (split_lines (join_lines sample_lines))))%nat.
Proof.
  assert (Hin : mkEntry "One" "" "" "" "http://a/1"
    ∈ parseM3U id after_comma no_match no_match no_match (join_lines sample_lines)).
  { vm_compute. apply list_elem_of_here. }
  split; [exact Hin|].
  exact (proj1 (proj2 (proj2 (proj2
    (parseM3U_channels id after_comma no_match no_match no_match
       (join_lines sample_lines) _ Hin))))).
Defined.

Lemma parseM3U_paired_witness :
  parseM3U id after_comma no_match no_match no_match (join_lines sample_lines)
  = sample_entries.
Proof.
  refine (proj1 (parseM3U_paired id after_comma no_match no_match no_match sample_lines
    [("#EXTINF:-1,One", "http://a/1"); ("#EXTINF:-1,Two", "http://a/2")] _ _ _ _)).
  - discriminate.
  - exact sample_no_newline.
  - vm_compute. reflexivity.
  - repeat constructor.
Defined.

Lemma load_channels_channels_witness :
  (length (load_channels id after_comma no_match no_match no_match no_match
            (join_lines sample_lines)) ≤ 2)%nat.
Proof.
  exact (proj2 (load_channels_channels id after_comma no_match no_match no_match
                  no_match (join_lines sample_lines))).
Defined.

Lemma parsers_agree_witness :
  parseM3U id after_comma no_match no_match no_match (join_lines sample_lines)
  = to_entry id <$> load_channels id after_comma no_match no_match no_match no_match
                      (join_lines sample_lines).
Proof.
  apply parsers_agree. rewrite split_join; [|discriminate|exact sample_no_newline].
  repeat constructor; vm_compute; congruence.
Defined.

End PlaylistFacts.
